(** * Resume analyzer backend (api.py): the evaluation engine

    A shallow embedding of [analyze_resume] and [course_recommender] of
    api.py, with the properties of the field classifier, the section
    scanner, the candidate level, the recommendation sampling and the
    error paths.

    Conventions of the model:
    - Python [str] values are [string]s of bytes; [str.lower] is modelled on
      the ASCII range (bytes outside [A-Z] are left as they are);
    - the module-level lists imported from Courses.py are a mutable store
      that is threaded through the calls, since [random.shuffle] updates
      the list it is given in place;
    - the [random] module is a source of draws: a stream of naturals with a
      cursor, [randbelow n] being the next draw reduced below [n];
    - the two collaborators (pyresparser's [ResumeParser] and pdfminer behind
      [pdf_reader]) are fields of an environment, and every call of one of
      them is recorded in a trace. *)

From stdpp Require Import gmap strings list fin_maps.
From Stdlib Require Import ZArith Ascii String.

Local Open Scope string_scope.
Local Open Scope Z_scope.
Set Warnings "-clear-no-such-hyp".

(** ** Strings: [str.lower] and the [in] operator *)

Definition lower_ascii (c : ascii) : ascii :=
  let n := nat_of_ascii c in
  if ((65 <=? n)%nat && (n <=? 90)%nat)%bool then ascii_of_nat (n + 32) else c.

Fixpoint lower (s : string) : string :=
  match s with
  | EmptyString => EmptyString
  | String c s' => String (lower_ascii c) (lower s')
  end.

(** [starts_with kw text]: [text.startswith(kw)]. *)
Fixpoint starts_with (kw text : string) : bool :=
  match kw, text with
  | EmptyString, _ => true
  | String _ _, EmptyString => false
  | String a kw', String b text' => bool_decide (a = b) && starts_with kw' text'
  end.

(** [str_in kw text]: the Python expression [kw in text] on two strings,
    plain substring containment. *)
Fixpoint str_in (kw text : string) : bool :=
  starts_with kw text ||
  match text with
  | EmptyString => false
  | String _ text' => str_in kw text'
  end.

(** The mathematical reading of containment. *)
Definition substring_of (kw text : string) : Prop :=
  ∃ a b : string, text = a +:+ kw +:+ b.

(** ** Field classifier (api.py, lines 100-133) *)

Definition ds_keyword : list string :=
  ["tensorflow"; "keras"; "pytorch"; "machine learning"; "deep learning";
   "flask"; "streamlit"; "python"].
Definition web_keyword : list string :=
  ["react"; "django"; "node js"; "react js"; "php"; "laravel"; "magento";
   "wordpress"; "javascript"; "angular js"; "c#"; "flask"].
Definition android_keyword : list string :=
  ["android"; "android development"; "flutter"; "kotlin"; "xml"; "kivy"; "java"].
Definition ios_keyword : list string :=
  ["ios"; "ios development"; "swift"; "cocoa"; "cocoa touch"; "xcode"].
Definition uiux_keyword : list string :=
  ["ux"; "adobe xd"; "figma"; "zeplin"; "balsamiq"; "ui"; "prototyping";
   "wireframe"; "photoshop"; "illustrator"].

(** [any(i in kws for i in skills_lower)]: the set is iterated in some
    order, which [any] does not observe. *)
Definition any_in (kws : list string) (skills_lower : gset string) : bool :=
  existsb (λ i, bool_decide (i ∈ kws)) (elements skills_lower).

(** The five module-level catalogs of Courses.py, as references. *)
Inductive catalog := DsCourse | WebCourse | AndroidCourse | IosCourse | UiuxCourse.

#[global] Instance catalog_eq_dec : EqDecision catalog.
Proof. solve_decision. Defined.

(** The if/elif chain: the field name, the skills to recommend and the
    catalog handed to [course_recommender]; [None] when no branch is taken
    and [recommended_courses] keeps its initial value [[]]. *)
Definition match_field (skills_lower : gset string)
  : string * list string * option catalog :=
  if any_in ds_keyword skills_lower then
    ("Data Science",
     ["Data Visualization"; "Predictive Analysis"; "Statistical Modeling";
      "Data Mining"; "Clustering & Classification"; "Data Analytics";
      "Quantitative Analysis"; "Web Scraping"; "ML Algorithms"; "Keras";
      "Pytorch"; "Probability"; "Scikit-learn"; "Tensorflow"; "Flask";
      "Streamlit"],
     Some DsCourse)
  else if any_in web_keyword skills_lower then
    ("Web Development",
     ["React"; "Django"; "Node JS"; "React JS"; "php"; "laravel"; "Magento";
      "wordpress"; "Javascript"; "Angular JS"; "c#"; "Flask"; "SDK"],
     Some WebCourse)
  else if any_in android_keyword skills_lower then
    ("Android Development",
     ["Android"; "Android development"; "Flutter"; "Kotlin"; "XML"; "Java";
      "Kivy"; "GIT"; "SDK"; "SQLite"],
     Some AndroidCourse)
  else if any_in ios_keyword skills_lower then
    ("IOS Development",
     ["IOS"; "IOS Development"; "Swift"; "Cocoa"; "Cocoa Touch"; "Xcode";
      "Objective-C"; "SQLite"; "Plist"; "StoreKit"; "UI-Kit"; "AV Foundation";
      "Auto-Layout"],
     Some IosCourse)
  else if any_in uiux_keyword skills_lower then
    ("UI-UX Development",
     ["UI"; "User Experience"; "Adobe XD"; "Figma"; "Zeplin"; "Balsamiq";
      "Prototyping"; "Wireframes"; "Storyframes"; "Adobe Photoshop"; "Editing";
      "Illustrator"; "After Effects"; "Premier Pro"; "Indesign"],
     Some UiuxCourse)
  else ("Other", [], None).

Definition reco_field (skills_lower : gset string) : string :=
  (match_field skills_lower).1.1.

(** The precedence order of the chain as a table, for stating what the
    chain computes. *)
Definition field_table : list (string * list string) :=
  [("Data Science", ds_keyword); ("Web Development", web_keyword);
   ("Android Development", android_keyword); ("IOS Development", ios_keyword);
   ("UI-UX Development", uiux_keyword)].

(** [first_match S tbl]: the first entry of [tbl] whose keywords meet [S]. *)
Definition first_match (S : gset string) (tbl : list (string * list string))
    (f : string) : Prop :=
  ∃ pre kws post,
    tbl = (pre ++ (f, kws) :: post)%list ∧
    S ∩ list_to_set kws ≠ ∅ ∧
    ∀ f' kws', (f', kws') ∈ pre → S ∩ list_to_set kws' = ∅.

(** First-match selection over a table, as the specification words it:
    walk the table in order and return the first field whose keywords meet
    the skills, ["Other"] when there is none. *)
Fixpoint classify (tbl : list (string * list string)) (S : gset string)
  : string :=
  match tbl with
  | [] => "Other"
  | (f, kws) :: tbl' => if any_in kws S then f else classify tbl' S
  end.

(** ** Section scanner (api.py, lines 136-152) *)

(** The dict literal, in its insertion order (the order of [.items()]). *)
Definition sections_to_check : list (string * list string) :=
  [("objective", ["objective"; "summary"]);
   ("declaration", ["declaration"]);
   ("hobbies", ["hobbies"; "interests"]);
   ("achievements", ["achievements"; "awards"; "certifications"]);
   ("projects", ["projects"; "experience"; "work experience"])].

(** [any(keyword in resume_text_lower for keyword in keywords)] *)
Definition any_keyword_in (keywords : list string) (text : string) : bool :=
  existsb (λ keyword, str_in keyword text) keywords.

(** One round of the loop over [sections_to_check.items()], on the pair
    [(resume_score, score_breakdown)]. *)
Definition scan_step (resume_text_lower : string)
    (acc : Z * gmap string bool) (item : string * list string)
  : Z * gmap string bool :=
  let '(resume_score, score_breakdown) := acc in
  let '(section, keywords) := item in
  if any_keyword_in keywords resume_text_lower
  then (resume_score + 20, <[section := true]> score_breakdown)
  else (resume_score, <[section := false]> score_breakdown).

Definition scan_loop (items : list (string * list string))
    (resume_text_lower : string) (acc : Z * gmap string bool)
  : Z * gmap string bool :=
  fold_left (scan_step resume_text_lower) items acc.

(** [resume_score = 0], [score_breakdown = {}], then the loop. *)
Definition scan_sections (resume_text_lower : string) : Z * gmap string bool :=
  scan_loop sections_to_check resume_text_lower (0, ∅).

(** The number of [True] values of a breakdown. *)
Definition count_true (score_breakdown : gmap string bool) : nat :=
  size (filter (λ kv : string * bool, kv.2 = true) score_breakdown).

(** The number of sections of a table that a text shows. *)
Definition hits (items : list (string * list string)) (text : string) : nat :=
  List.length (filter (λ it, any_keyword_in it.2 text = true) items).

(** ** Candidate level (api.py, lines 89-97) *)

(** The values the extractor's record holds for the keys read here. The
    elements of a list are taken to be [str]. *)
Inductive value :=
  | VNone
  | VInt (z : Z)
  | VStr (s : string)
  | VList (l : list string).

Definition type_name (v : value) : string :=
  match v with
  | VNone => "NoneType"
  | VInt _ => "int"
  | VStr _ => "str"
  | VList _ => "list"
  end.

Record exn := Exn { exn_class : string; exn_text : string }.

Definition TypeError (text : string) : exn := Exn "TypeError" text.

(** The if/elif chain on an [int] page count; [cand_level] starts as ['']. *)
Definition cand_level_of (page_count : Z) : string :=
  if page_count =? 1 then "Fresher"
  else if page_count =? 2 then "Intermediate"
  else if page_count >=? 3 then "Experienced"
  else "".

(** On a value that is not an [int] both [==] tests are false and [>= 3]
    raises. *)
Definition cand_level (page_count : value) : exn + string :=
  match page_count with
  | VInt z => inr (cand_level_of z)
  | v => inl (TypeError ("'>=' not supported between instances of '"
                         +:+ type_name v +:+ "' and 'int'"))
  end.

(** [dict.get(key, default)] *)
Definition get (d : gmap string value) (key : string) (dflt : value) : value :=
  default dflt (d !! key).

(** The characters of a [str], as iterating over it yields them. *)
Fixpoint chars (s : string) : list string :=
  match s with
  | EmptyString => []
  | String c s' => String c EmptyString :: chars s'
  end.

(** [{skill.lower() for skill in skills}] *)
Definition skills_lower_of (skills : value) : exn + gset string :=
  match skills with
  | VList l => inr (list_to_set (lower <$> l))
  | VStr s => inr (list_to_set (lower <$> chars s))
  | v => inl (TypeError ("'" +:+ type_name v +:+ "' object is not iterable"))
  end.

(** ** The [random] module *)

Record rng := Rng { source : nat → nat; pos : nat }.

(** [random._randbelow(n)], for [n > 0]. *)
Definition randbelow (n : nat) (g : rng) : nat * rng :=
  ((source g (pos g) mod n)%nat, Rng (source g) (S (pos g))).

(** [x[i], x[j] = x[j], x[i]]; an index out of range would raise
    [IndexError], which [shuffle] never meets since [j <= i < len(x)]. *)
Definition swap {A} (x : list A) (i j : nat) : list A :=
  match x !! i, x !! j with
  | Some xi, Some xj => <[j := xi]> (<[i := xj]> x)
  | _, _ => x
  end.

(** [for i in reversed(range(1, len(x))): j = randbelow(i + 1); swap]:
    the loop of [random.shuffle], from index [i] downwards. *)
Fixpoint shuffle_loop {A} (i : nat) (x : list A) (g : rng) : list A * rng :=
  match i with
  | O => (x, g)
  | S i' =>
      let '(j, g') := randbelow (S i) g in
      shuffle_loop i' (swap x i j) g'
  end.

Definition shuffle {A} (x : list A) (g : rng) : list A * rng :=
  shuffle_loop (List.length x - 1) x g.

(** ** The engine: store, collaborators and the monad of a call *)

Section Engine.

(** The entries of the two video lists of Courses.py are passed through
    unread; their type is left open. *)
Variable video : Type.

(** The names imported from Courses.py (line 25). When the import fails
    all seven are bound to [[]] (line 28). The seven names are taken to be
    bound to seven distinct list objects. *)
Record store := Store {
  ds_course : list (string * string);
  web_course : list (string * string);
  android_course : list (string * string);
  ios_course : list (string * string);
  uiux_course : list (string * string);
  resume_videos : list video;
  interview_videos : list video
}.

Definition empty_store : store := Store [] [] [] [] [] [] [].

Definition read_catalog (c : catalog) (g : store) : list (string * string) :=
  match c with
  | DsCourse => ds_course g
  | WebCourse => web_course g
  | AndroidCourse => android_course g
  | IosCourse => ios_course g
  | UiuxCourse => uiux_course g
  end.

Definition write_catalog (c : catalog) (l : list (string * string)) (g : store)
  : store :=
  match c with
  | DsCourse =>
      Store l (web_course g) (android_course g) (ios_course g) (uiux_course g)
        (resume_videos g) (interview_videos g)
  | WebCourse =>
      Store (ds_course g) l (android_course g) (ios_course g) (uiux_course g)
        (resume_videos g) (interview_videos g)
  | AndroidCourse =>
      Store (ds_course g) (web_course g) l (ios_course g) (uiux_course g)
        (resume_videos g) (interview_videos g)
  | IosCourse =>
      Store (ds_course g) (web_course g) (android_course g) l (uiux_course g)
        (resume_videos g) (interview_videos g)
  | UiuxCourse =>
      Store (ds_course g) (web_course g) (android_course g) (ios_course g) l
        (resume_videos g) (interview_videos g)
  end.

(** Calls of the collaborators, in the order they are made. *)
Inductive event :=
  | ResumeParserCall (path : string)
  | PdfReaderCall (path : string).

Record state := State {
  globals : store;
  gen : rng;
  trace : list event
}.

(** What the collaborators do on a path: [ResumeParser(path)
    .get_extracted_data()] raises an [Exception] or returns [None] or a
    dict; the pdfminer pipeline of [pdf_reader] raises or yields the text.
    [now] is [datetime.datetime.now().isoformat()]. *)
Record env := Env {
  get_extracted_data : string → exn + option (gmap string value);
  extract_text : string → exn + string;
  now : string
}.

(** A computation: it reads and updates the state and returns a value or
    raises. *)
Definition M (A : Type) : Type := state → (exn + A) * state.

Definition ret {A} (a : A) : M A := λ s, (inr a, s).
Definition raise {A} (e : exn) : M A := λ s, (inl e, s).
Definition bind {A B} (m : M A) (k : A → M B) : M B :=
  λ s, match m s with
       | (inr a, s') => k a s'
       | (inl e, s') => (inl e, s')
       end.
Definition lift {A} (r : exn + A) : M A :=
  match r with inl e => raise e | inr a => ret a end.
(** [try: m except Exception as e: ...], as a value. *)
Definition try {A} (m : M A) : M (exn + A) :=
  λ s, let '(r, s') := m s in (inr r, s').

Notation "'let*' x ':=' m 'in' k" := (bind m (λ x, k))
  (at level 10, x name, m at level 100, k at level 200).

Definition log (e : event) : M unit :=
  λ s, (inr tt, State (globals s) (gen s) (trace s ++ [e])).
Definition get_globals : M store := λ s, (inr (globals s), s).
Definition put_globals (g : store) : M unit :=
  λ s, (inr tt, State g (gen s) (trace s)).
(** Run a step of the random module on the generator of the state. *)
Definition draw {A} (f : rng → A * rng) : M A :=
  λ s, let '(a, g') := f (gen s) in (inr a, State (globals s) g' (trace s)).

Variable world : env.

(** [ResumeParser(resume_path).get_extracted_data()] *)
Definition resume_parser (resume_path : string)
  : M (option (gmap string value)) :=
  let* _ := log (ResumeParserCall resume_path) in
  lift (get_extracted_data world resume_path).

(** [pdf_reader] (lines 43-57): the text of all pages, or the exception
    of [open] or of pdfminer. *)
Definition pdf_reader (file_path : string) : M string :=
  let* _ := log (PdfReaderCall file_path) in
  lift (extract_text world file_path).

Record course := Course { course_name : string; course_link : string }.

(** [{"name": c_name, "link": c_link}] for an entry [(c_name, c_link)]. *)
Definition course_entry (entry : string * string) : course :=
  let '(c_name, c_link) := entry in Course c_name c_link.

(** [course_recommender] (lines 60-69). The argument is one of the module
    lists, shuffled in place. *)
Definition course_recommender (course_list : catalog) : M (list course) :=
  let* g := get_globals in
  let* x := draw (shuffle (read_catalog course_list g)) in
  let* _ := put_globals (write_catalog course_list x g) in
  ret (course_entry <$> take 5 x).

(** [random.choice(seq)] *)
Definition choice (seq : list video) : M video :=
  match seq with
  | [] => raise (Exn "IndexError" "Cannot choose from an empty sequence")
  | v :: _ =>
      let* i := draw (randbelow (List.length seq)) in
      ret (nth i seq v)
  end.

(** [random.choice(videos) if videos else None] *)
Definition video_rec (videos : list video) : M (option video) :=
  match videos with
  | [] => ret None
  | _ :: _ => let* v := choice videos in ret (Some v)
  end.

Record analysis_result := AnalysisResult {
  name : value;
  email : value;
  mobile_number : value;
  skills : value;
  no_of_pages : value;
  candidate_level : string;
  predicted_field : string;
  recommended_skills : list string;
  recommended_courses : list course;
  resume_score : Z;
  score_breakdown : gmap string bool;
  resume_video_rec : option video;
  interview_video_rec : option video;
  timestamp : string
}.

(** The dict [analyze_resume] returns: [{"error": ...}] or the result. *)
Inductive response :=
  | ErrorDict (error : string)
  | Analysis (r : analysis_result).

(** [not resume_data]: [None] and the empty dict are false. *)
Definition falsy (resume_data : option (gmap string value)) : bool :=
  match resume_data with
  | None => true
  | Some d => bool_decide (d = ∅)
  end.

(** [analyze_resume] (lines 72-176) *)
Definition analyze_resume (resume_path : string) : M response :=
  let* parsed := try (resume_parser resume_path) in
  match parsed with
  | inl e =>
      ret (ErrorDict ("Error parsing resume with pyresparser: " +:+ exn_text e))
  | inr resume_data =>
      if falsy resume_data then
        ret (ErrorDict
          "Could not extract any data from the resume. Is it a valid resume format?")
      else
        let d := default ∅ resume_data in
        let* resume_text := pdf_reader resume_path in
        let resume_text_lower := lower resume_text in
        let page_count := get d "no_of_pages" (VInt 0) in
        let* level := lift (cand_level page_count) in
        let* skills_lower := lift (skills_lower_of (get d "skills" (VList []))) in
        let '(field, rec_skills, cat) := match_field skills_lower in
        let* rec_courses :=
          match cat with
          | Some c => course_recommender c
          | None => ret []
          end in
        let '(score, breakdown) := scan_sections resume_text_lower in
        let* g := get_globals in
        let* resume_video := video_rec (resume_videos g) in
        let* interview_video := video_rec (interview_videos g) in
        ret (Analysis
          (AnalysisResult
             (get d "name" VNone) (get d "email" VNone)
             (get d "mobile_number" VNone) (get d "skills" VNone)
             page_count level field rec_skills rec_courses score breakdown
             resume_video interview_video (now world)))
  end.

(** The try block of [analyze_route] (lines 213-230): the JSON body and
    the status code. The handling of the upload around it is left out. *)
Inductive body :=
  | ErrorBody (error : string)
  | ResultBody (r : analysis_result).

Definition analyze_route_try (file_path : string) : M (body * Z) :=
  let* outcome := try (analyze_resume file_path) in
  match outcome with
  | inr (ErrorDict error) => ret (ErrorBody error, 400)
  | inr (Analysis r) => ret (ResultBody r, 200)
  | inl _ =>
      ret (ErrorBody "An unexpected server error occurred during analysis.", 500)
  end.

(** A sequence of recommendation requests, one catalog after the other. *)
Fixpoint recommend_all (requests : list catalog) : M (list (list course)) :=
  match requests with
  | [] => ret []
  | c :: requests' =>
      let* r := course_recommender c in
      let* rs := recommend_all requests' in
      ret (r :: rs)
  end.

(** What [video_rec] returns when the draw it makes is [n], and the
    generator it leaves. *)
Definition pick (videos : list video) (n : nat) : option video :=
  match videos with
  | [] => None
  | v :: _ => Some (nth (n mod List.length videos) videos v)
  end.

Definition after_pick (videos : list video) (g : rng) : rng :=
  match videos with
  | [] => g
  | _ :: _ => Rng (source g) (S (pos g))
  end.

(** The course step of [analyze_resume] on a store and a generator: the
    courses, the store and the generator it leaves. *)
Definition recommend (cat : option catalog) (g : store) (r : rng)
  : list course * store * rng :=
  match cat with
  | Some c =>
      (course_entry <$> take 5 (shuffle (read_catalog c g) r).1,
       write_catalog c (shuffle (read_catalog c g) r).1 g,
       (shuffle (read_catalog c g) r).2)
  | None => ([], g, r)
  end.

(** The sampling property in the specification's words: at most five
    entries, all of the catalog, no two equal, and the catalog as it was
    (same entries in the same order) after the call. *)
Definition catalog_kept (c : catalog) (s : state) : Prop :=
  ∃ cs s',
    course_recommender c s = (inr cs, s') ∧
    (List.length cs ≤ 5)%nat ∧
    (∀ x, x ∈ cs → ∃ entry,
       entry ∈ read_catalog c (globals s) ∧ x = course_entry entry) ∧
    NoDup cs ∧
    read_catalog c (globals s') = read_catalog c (globals s).

(** The error policy in the specification's words: a failure [e] of the
    text extraction comes back as an error result whose reason holds the
    text of [e]. *)
Definition reader_failure_reported (p : string) (s : state) (e : exn) : Prop :=
  ∃ reason s',
    analyze_resume p s = (inr (ErrorDict reason), s') ∧
    substring_of (exn_text e) reason.

End Engine.

(** The catalog of a field, by the field's name. *)
Definition catalog_of_field (field : string) : option catalog :=
  if bool_decide (field = "Data Science") then Some DsCourse
  else if bool_decide (field = "Web Development") then Some WebCourse
  else if bool_decide (field = "Android Development") then Some AndroidCourse
  else if bool_decide (field = "IOS Development") then Some IosCourse
  else if bool_decide (field = "UI-UX Development") then Some UiuxCourse
  else None.

Arguments Store {video}.
Arguments empty_store {video}.
Arguments State {video}.
Arguments Analysis {video}.
Arguments ErrorDict {video}.
Arguments AnalysisResult {video}.
Arguments ErrorBody {video}.
Arguments ResultBody {video}.
Arguments ret {video A}.
Arguments raise {video A}.
Arguments bind {video A B}.
Arguments lift {video A}.
Arguments try {video A}.
Arguments draw {video A}.
Arguments choice {video}.
Arguments video_rec {video}.
Arguments pick {video}.
Arguments catalog_kept {video}.
Arguments reader_failure_reported {video}.
Arguments recommend_all {video}.
Arguments recommend {video}.
Arguments after_pick {video}.
Arguments read_catalog {video}.
Arguments write_catalog {video}.
Arguments get_globals {video}.
Arguments put_globals {video}.

(** ** The route [analyze_route] (api.py, lines 183-239) *)

Definition UPLOAD_FOLDER : string := "Uploaded_Resumes_API".

(** [s.endswith("/")] *)
Fixpoint ends_with_sep (s : string) : bool :=
  match s with
  | EmptyString => false
  | String c EmptyString => bool_decide (c = "/"%char)
  | String _ s' => ends_with_sep s'
  end.

(** [os.path.join(a, b)] on a POSIX host: an absolute [b] replaces [a]. *)
Definition path_join (a b : string) : string :=
  if starts_with "/" b then b
  else if bool_decide (a = "") || ends_with_sep a then a +:+ b
  else a +:+ "/" +:+ b.

(** An entry of [request.files]: a [FileStorage], of which the route reads
    the file name ([None] when the part carries none). *)
Record upload := Upload { upload_filename : option string }.

(** [bool(file)]: a [FileStorage] is true when its file name is. *)
Definition file_truthy (file : upload) : bool :=
  match upload_filename file with
  | Some n => negb (bool_decide (n = ""))
  | None => false
  end.

(** What [file.save(path)] does: it writes the file, or raises and leaves
    a partial file or none. *)
Inductive save_outcome :=
  | Saved
  | SaveRaises (e : exn) (partial : bool).

(** The host of the server: [time_time] is [str(time.time())]. *)
Record host := Host {
  time_time : string;
  save : string → save_outcome
}.

Section Route.

Variable video : Type.
Variable world : env.
Variable machine : host.

(** The paths that exist on the disk, and the state of the engine. The
    collaborators read the upload and leave the disk as it is. *)
Record server := Server {
  disk : gset string;
  engine : state video
}.

(** [os.path.join(app.config['UPLOAD_FOLDER'], f"{time.time()}_{name}")] *)
Definition upload_path (name : string) : string :=
  path_join UPLOAD_FOLDER (time_time machine +:+ "_" +:+ name).

(** The [finally] block: [if file_path and os.path.exists(file_path):
    os.remove(file_path)]. *)
Definition cleanup (file_path : string) (d : gset string) : gset string :=
  if negb (bool_decide (file_path = "")) && bool_decide (file_path ∈ d)
  then d ∖ {[file_path]}
  else d.

(** [analyze_route]: the response (body and status) or the exception that
    leaves the view function. *)
Definition analyze_route (request_files : gmap string upload) (sv : server)
  : (exn + body video * Z) * server :=
  match request_files !! "resume" with
  | None => (inr (ErrorBody "No resume file part in the request", 400), sv)
  | Some file =>
      if bool_decide (upload_filename file = Some "") then
        (inr (ErrorBody "No file selected", 400), sv)
      else if file_truthy file then
        let file_path := upload_path (default "" (upload_filename file)) in
        match save machine file_path with
        | SaveRaises e partial =>
            (inl e,
             Server (if partial then {[file_path]} ∪ disk sv else disk sv)
                    (engine sv))
        | Saved =>
            let saved := {[file_path]} ∪ disk sv in
            let '(outcome, engine') :=
              analyze_route_try video world file_path (engine sv) in
            (outcome, Server (cleanup file_path saved) engine')
        end
      else (inr (ErrorBody "Invalid file provided.", 400), sv)
  end.

End Route.

Arguments Server {video}.
Arguments disk {video}.
Arguments engine {video}.
Arguments analyze_route {video}.

(** Whether the structured extractor fails on a path: it raises, or
    returns [None] or an empty record. *)
Definition extractor_fails (world : env) (p : string) : Prop :=
  match get_extracted_data world p with
  | inl _ => True
  | inr resume_data => falsy resume_data = true
  end.

Section OutcomeSpec.

Variable video : Type.
Variable world : env.

(** The ways a call of [analyze_resume] can end. *)
Inductive outcome_of (p : string) (s : state video)
  : (exn + response video) * state video → Prop :=
  | ParserRaised e :
      get_extracted_data world p = inl e →
      outcome_of p s
        (inr (ErrorDict
                ("Error parsing resume with pyresparser: " +:+ exn_text e)),
         State (globals video s) (gen video s)
           (trace video s ++ [ResumeParserCall p]))
  | NoData resume_data :
      get_extracted_data world p = inr resume_data →
      falsy resume_data = true →
      outcome_of p s
        (inr (ErrorDict
           "Could not extract any data from the resume. Is it a valid resume format?"),
         State (globals video s) (gen video s)
           (trace video s ++ [ResumeParserCall p]))
  | Raised d e :
      get_extracted_data world p = inr (Some d) →
      d ≠ ∅ →
      (extract_text world p = inl e ∨
       (∃ text, extract_text world p = inr text ∧
          (cand_level (get d "no_of_pages" (VInt 0)) = inl e ∨
           (∃ level, cand_level (get d "no_of_pages" (VInt 0)) = inr level ∧
                     skills_lower_of (get d "skills" (VList [])) = inl e)))) →
      outcome_of p s
        (inl e,
         State (globals video s) (gen video s)
           (trace video s ++ [ResumeParserCall p; PdfReaderCall p]))
  | Analysed d text level S r s' :
      get_extracted_data world p = inr (Some d) →
      d ≠ ∅ →
      extract_text world p = inr text →
      cand_level (get d "no_of_pages" (VInt 0)) = inr level →
      skills_lower_of (get d "skills" (VList [])) = inr S →
      analyze_resume video world p s = (inr (Analysis r), s') →
      trace video s'
      = (trace video s ++ [ResumeParserCall p; PdfReaderCall p])%list →
      outcome_of p s (inr (Analysis r), s').

End OutcomeSpec.

Arguments outcome_of {video}.

(** ** Sample inputs *)

Definition sample_record : gmap string value :=
  <["name" := VStr "Ada"]>
    (<["skills" := VList ["Python"; "TensorFlow"]]>
       (<["no_of_pages" := VInt 1]> ∅)).

(** Both collaborators answer. *)
Definition sample_world : env :=
  Env (λ _, inr (Some sample_record))
      (λ _, inr "My Projects and Certifications")
      "2025-01-01T00:00:00".

(** The structured extractor raises. *)
Definition corrupt_world : env :=
  Env (λ _, inl (Exn "Exception" "corrupt file"))
      (λ _, inr "")
      "2025-01-01T00:00:00".

(** The structured extractor returns [None]. *)
Definition blank_world : env :=
  Env (λ _, inr None) (λ _, inr "") "2025-01-01T00:00:00".

(** The structured extractor answers and the text extraction raises. *)
Definition unreadable_world : env :=
  Env (λ _, inr (Some sample_record))
      (λ _, inl (Exn "PDFSyntaxError" "No /Root object! - Is this really a PDF?"))
      "2025-01-01T00:00:00".

(** A record whose skills match no field, on five pages. *)
Definition excel_world : env :=
  Env (λ _, inr (Some (<["skills" := VList ["Excel"]]>
                         (<["no_of_pages" := VInt 5]> ∅))))
      (λ _, inr "Curriculum")
      "2025-01-01T00:00:00".

(** A record whose page count is [None]. *)
Definition pageless_world : env :=
  Env (λ _, inr (Some (<["skills" := VList ["Python"]]>
                         (<["no_of_pages" := VNone]> ∅))))
      (λ _, inr "Curriculum")
      "2025-01-01T00:00:00".

(** A record whose skills are [None]. *)
Definition skill_less_world : env :=
  Env (λ _, inr (Some (<["skills" := VNone]>
                         (<["no_of_pages" := VInt 2]> ∅))))
      (λ _, inr "Curriculum")
      "2025-01-01T00:00:00".

(** A host on which every save succeeds, and one on which it fails and
    leaves a partial file. *)
Definition sample_host : host := Host "1700000000.5" (λ _, Saved).

Definition full_disk_host : host :=
  Host "1700000000.5"
       (λ _, SaveRaises (Exn "OSError" "No space left on device") true).

(** The state of a server that started without Courses.py. *)
Definition bare_state : state string :=
  State empty_store (Rng (λ _, 0%nat) 0) [].

(** A request that uploads a file named cv.pdf. *)
Definition sample_request : gmap string upload :=
  <["resume" := Upload (Some "cv.pdf")]> ∅.

Definition sample_store : store string :=
  Store [("a", "la"); ("b", "lb")] [] [] [] [] ["v1"; "v2"] [].

(** A generator whose every draw is 0. *)
Definition sample_state : state string :=
  State sample_store (Rng (λ _, 0%nat) 0) [].

(** * Properties *)

(** ** Strings *)

Lemma app_cons c (a b : string) : String c a +:+ b = String c (a +:+ b).
Proof. reflexivity. Qed.

Lemma app_empty (b : string) : "" +:+ b = b.
Proof. reflexivity. Qed.

Lemma app_empty_r (a : string) : a +:+ "" = a.
Proof. induction a as [|c a IH]; [done|]. by rewrite app_cons, IH. Qed.

Lemma starts_with_spec kw text :
  starts_with kw text = true ↔ ∃ b, text = kw +:+ b.
Proof.
  revert text. induction kw as [|a kw IH]; intros text; simpl.
  - split; [eauto | done].
  - destruct text as [|b text].
    + split; [done | intros [? ?]; discriminate].
    + rewrite andb_true_iff, bool_decide_eq_true, IH. split.
      * intros [-> [r ->]]. eauto.
      * intros [r Hr]. rewrite app_cons in Hr. injection Hr as -> ->. eauto.
Qed.

Lemma str_in_spec kw text : str_in kw text = true ↔ substring_of kw text.
Proof.
  unfold substring_of. induction text as [|c text IH]; simpl.
  - rewrite orb_false_r, starts_with_spec. split.
    + intros [b Hb]. exists "", b. done.
    + intros (a & b & Hab). destruct a; [eauto | discriminate].
  - rewrite orb_true_iff, starts_with_spec, IH. split.
    + intros [[b Hb] | (a & b & ->)].
      * exists "", b. done.
      * exists (String c a), b. done.
    + intros (a & b & Hab). destruct a as [|c' a].
      * left. eauto.
      * right. rewrite app_cons in Hab. injection Hab as -> ->. eauto.
Qed.

Lemma lower_app a b : lower (a +:+ b) = lower a +:+ lower b.
Proof.
  induction a as [|c a IH]; [done|].
  rewrite app_cons. simpl. by rewrite IH, app_cons.
Qed.

Lemma substring_of_lower a b :
  substring_of a b → substring_of (lower a) (lower b).
Proof.
  intros (x & y & ->). exists (lower x), (lower y).
  by rewrite !lower_app.
Qed.

Lemma app_assoc_str (a b c : string) : (a +:+ b) +:+ c = a +:+ (b +:+ c).
Proof.
  induction a as [|x a IH]; [done|]. by rewrite !app_cons, IH.
Qed.

Lemma substring_of_trans a b c :
  substring_of a b → substring_of b c → substring_of a c.
Proof.
  intros (x & y & ->) (x' & y' & ->).
  exists (x' +:+ x), (y +:+ y'). by rewrite !app_assoc_str.
Qed.

(** ** Field classifier *)

Lemma any_in_true kws (S : gset string) :
  any_in kws S = true ↔ S ∩ list_to_set kws ≠ ∅.
Proof.
  unfold any_in. rewrite existsb_exists. split.
  - intros (i & Hi & Hk). apply bool_decide_eq_true in Hk.
    apply list_elem_of_In, elem_of_elements in Hi.
    intros He. apply (not_elem_of_empty (C:=gset string) i).
    rewrite <- He. apply elem_of_intersection. split; [done|].
    by apply elem_of_list_to_set.
  - intros Hne. apply set_choose_L in Hne as (i & Hin).
    apply elem_of_intersection in Hin as [HS Hk].
    apply elem_of_list_to_set in Hk.
    exists i. split.
    + by apply list_elem_of_In, elem_of_elements.
    + by apply bool_decide_eq_true.
Qed.

Lemma any_in_false kws (S : gset string) :
  any_in kws S = false ↔ S ∩ list_to_set kws = ∅.
Proof.
  rewrite <- not_true_iff_false, any_in_true.
  split; [apply dec_stable | auto].
Qed.

(** The chain of [analyze_resume] walks [field_table] in order. *)
Lemma reco_field_classify S : reco_field S = classify field_table S.
Proof.
  unfold reco_field, match_field. simpl.
  repeat (destruct (any_in _ S); [reflexivity|]). reflexivity.
Qed.

Lemma classify_other tbl S :
  "Other" ∉ tbl.*1 →
  classify tbl S = "Other" ↔
  ∀ f kws, (f, kws) ∈ tbl → S ∩ list_to_set kws = ∅.
Proof.
  induction tbl as [|[f kws] tbl IH]; simpl; intros Hno.
  - split; [|done]. intros _ f kws Hin. by apply elem_of_nil in Hin.
  - apply not_elem_of_cons in Hno as [Hf Hno].
    destruct (any_in kws S) eqn:E.
    + apply any_in_true in E. split; [congruence|].
      intros Hall. destruct E. apply (Hall f kws), list_elem_of_here.
    + apply any_in_false in E. rewrite (IH Hno). split.
      * intros Hall f' kws' Hin.
        apply elem_of_cons in Hin as [Heq | Hin]; [by simplify_eq | eauto].
      * intros Hall f' kws' Hin. by apply (Hall f'), list_elem_of_further.
Qed.

Lemma classify_first tbl S :
  classify tbl S = "Other" ∨ first_match S tbl (classify tbl S).
Proof.
  induction tbl as [|[f kws] tbl IH]; simpl; [by left|].
  destruct (any_in kws S) eqn:E.
  - right. exists [], kws, tbl. apply any_in_true in E.
    split_and!; [done..|]. intros f' kws' Hin. by apply elem_of_nil in Hin.
  - destruct IH as [IH | (pre & kws1 & post & Htbl & Hmeet & Hpre)]; [by left|].
    right. exists ((f, kws) :: pre), kws1, post.
    split_and!; [by rewrite Htbl at 1 | done |].
    intros f' kws' Hin. apply elem_of_cons in Hin as [Heq | Hin].
    + simplify_eq. by apply any_in_false.
    + eauto.
Qed.

(** C1. For every skill set [S] the field chosen by the chain of
    [analyze_resume] is ["Other"] exactly when [S] meets none of the five
    keyword lists; otherwise it is the first field, in the order Data
    Science, Web Development, Android Development, IOS Development, UI-UX
    Development, whose keyword list meets [S]. *)
Theorem reco_field_first_match (S : gset string) :
  (reco_field S = "Other" ↔
     ∀ f kws, (f, kws) ∈ field_table → S ∩ list_to_set kws = ∅) ∧
  (reco_field S = "Other" ∨ first_match S field_table (reco_field S)).
Proof.
  rewrite reco_field_classify. split.
  - apply classify_other. simpl.
    rewrite !not_elem_of_cons. split_and!; try done. apply not_elem_of_nil.
  - apply classify_first.
Qed.

(** ** Candidate level *)

(** C5. The level is a total function of an integer page count: 1 gives
    Fresher, 2 Intermediate, 3 or more Experienced, and 0 or a negative
    count gives the empty string, never Fresher; a record without the key
    [no_of_pages] is read as 0 and gets the empty string as well. *)
Theorem cand_level_of_page_count (page_count : Z) (d : gmap string value) :
  (page_count = 1 → cand_level_of page_count = "Fresher") ∧
  (page_count = 2 → cand_level_of page_count = "Intermediate") ∧
  (page_count >= 3 → cand_level_of page_count = "Experienced") ∧
  (page_count <= 0 →
     cand_level_of page_count = "" ∧ cand_level_of page_count ≠ "Fresher") ∧
  (d !! "no_of_pages" = None →
     cand_level (get d "no_of_pages" (VInt 0)) = inr "") ∧
  cand_level (VInt page_count) = inr (cand_level_of page_count).
Proof.
  unfold cand_level_of. split_and!.
  - by intros ->.
  - by intros ->.
  - intros H. destruct (Z.eqb_spec page_count 1); [lia|].
    destruct (Z.eqb_spec page_count 2); [lia|].
    destruct (Z.geb_spec page_count 3); [done | lia].
  - intros H. destruct (Z.eqb_spec page_count 1); [lia|].
    destruct (Z.eqb_spec page_count 2); [lia|].
    destruct (Z.geb_spec page_count 3); [lia | done].
  - intros H. unfold get. by rewrite H.
  - done.
Qed.

Lemma cand_level_of_page_count_witness :
  cand_level_of 1 = "Fresher" ∧ cand_level_of 2 = "Intermediate" ∧
  cand_level_of 3 = "Experienced" ∧ cand_level_of 0 = "" ∧
  cand_level_of (-1) = "" ∧
  cand_level (get ∅ "no_of_pages" (VInt 0)) = inr "".
Proof.
  split_and!.
  - apply (cand_level_of_page_count 1 ∅). reflexivity.
  - apply (cand_level_of_page_count 2 ∅). reflexivity.
  - apply (cand_level_of_page_count 3 ∅). lia.
  - apply (cand_level_of_page_count 0 ∅). lia.
  - apply (cand_level_of_page_count (-1) ∅). lia.
  - destruct (cand_level_of_page_count 0 ∅) as (_ & _ & _ & _ & H & _).
    apply H. reflexivity.
Defined.

(** A value that is not an [int] (a page count of [None]) is outside the
    domain of the level: the comparison [>= 3] raises. *)
Lemma cand_level_not_int (v : value) :
  (∀ z, v ≠ VInt z) → ∃ e, cand_level v = inl e ∧ exn_class e = "TypeError".
Proof.
  intros Hv. destruct v as [|z| |]; try (eexists; split; reflexivity).
  by destruct (Hv z).
Qed.

(** ** Section scanner *)

Lemma any_keyword_in_true keywords text :
  any_keyword_in keywords text = true ↔
  ∃ keyword, keyword ∈ keywords ∧ substring_of keyword text.
Proof.
  unfold any_keyword_in. rewrite existsb_exists.
  split; intros (kw & Hin & Hsub); exists kw.
  - by rewrite list_elem_of_In, <- str_in_spec.
  - by rewrite <- list_elem_of_In, str_in_spec.
Qed.

Lemma any_keyword_in_mono keywords t1 t2 :
  substring_of t1 t2 →
  any_keyword_in keywords t1 = true → any_keyword_in keywords t2 = true.
Proof.
  intros Hsub. rewrite !any_keyword_in_true. intros (kw & Hin & Hkw).
  exists kw. eauto using substring_of_trans.
Qed.

Lemma scan_loop_cons it items text acc :
  scan_loop (it :: items) text acc = scan_loop items text (scan_step text acc it).
Proof. reflexivity. Qed.

Lemma hits_nil text : hits [] text = 0%nat.
Proof. reflexivity. Qed.

Lemma hits_cons section keywords items text :
  hits ((section, keywords) :: items) text
  = ((if any_keyword_in keywords text then 1 else 0) + hits items text)%nat.
Proof.
  unfold hits. rewrite filter_cons. simpl.
  destruct (any_keyword_in keywords text).
  - by rewrite decide_True.
  - by rewrite decide_False.
Qed.

Lemma scan_loop_score items text n bd :
  (scan_loop items text (n, bd)).1 = n + 20 * Z.of_nat (hits items text).
Proof.
  revert n bd. induction items as [|[section keywords] items IH]; intros n bd.
  - rewrite hits_nil. simpl. lia.
  - rewrite scan_loop_cons, hits_cons. simpl.
    destruct (any_keyword_in keywords text); rewrite IH; lia.
Qed.

Lemma scan_loop_lookup_ne items text n bd section :
  section ∉ items.*1 →
  (scan_loop items text (n, bd)).2 !! section = bd !! section.
Proof.
  revert n bd. induction items as [|[s keywords] items IH]; intros n bd Hno.
  - done.
  - rewrite fmap_cons in Hno. apply not_elem_of_cons in Hno as [Hne Hno].
    rewrite scan_loop_cons. simpl.
    destruct (any_keyword_in keywords text);
      rewrite (IH _ _ Hno); by apply lookup_insert_ne.
Qed.

Lemma scan_loop_lookup items text n bd section keywords :
  NoDup items.*1 →
  (section, keywords) ∈ items →
  (scan_loop items text (n, bd)).2 !! section
  = Some (any_keyword_in keywords text).
Proof.
  revert n bd. induction items as [|[s kws] items IH]; intros n bd Hnd Hin.
  - by apply elem_of_nil in Hin.
  - rewrite fmap_cons in Hnd. apply NoDup_cons in Hnd as [Hs Hnd].
    rewrite scan_loop_cons.
    apply elem_of_cons in Hin as [Heq | Hin].
    + simplify_eq. simpl.
      destruct (any_keyword_in kws text);
        rewrite (scan_loop_lookup_ne _ _ _ _ _ Hs); apply lookup_insert_eq.
    + simpl. destruct (any_keyword_in kws text); by apply IH.
Qed.

Lemma scan_loop_dom items text n bd :
  dom (scan_loop items text (n, bd)).2 = dom bd ∪ list_to_set items.*1.
Proof.
  revert n bd. induction items as [|[s kws] items IH]; intros n bd.
  - simpl. set_solver.
  - rewrite scan_loop_cons. simpl.
    destruct (any_keyword_in kws text); rewrite IH, dom_insert_L; set_solver.
Qed.

Lemma count_true_insert (bd : gmap string bool) section (b : bool) :
  bd !! section = None →
  count_true (<[section := b]> bd)
  = (count_true bd + (if b then 1 else 0))%nat.
Proof.
  intros Hnone. unfold count_true. destruct b.
  - rewrite map_filter_insert_True by done.
    rewrite map_size_insert_None; [lia|].
    apply map_lookup_filter_None. left. done.
  - rewrite map_filter_insert_False by done.
    rewrite delete_id by done. lia.
Qed.

Lemma scan_loop_count items text n bd :
  NoDup items.*1 →
  (∀ section, section ∈ items.*1 → bd !! section = None) →
  count_true (scan_loop items text (n, bd)).2
  = (count_true bd + hits items text)%nat.
Proof.
  revert n bd. induction items as [|[s kws] items IH]; intros n bd Hnd Hfresh.
  - rewrite hits_nil. simpl. lia.
  - rewrite fmap_cons in Hnd, Hfresh. apply NoDup_cons in Hnd as [Hs Hnd].
    rewrite scan_loop_cons, hits_cons. simpl.
    assert (bd !! s = None) as Hsnone by (apply Hfresh, list_elem_of_here).
    assert (∀ b section, section ∈ items.*1 →
              (<[s := b]> bd : gmap string bool) !! section = None) as Hfresh'.
    { intros b section Hin. rewrite lookup_insert_ne by set_solver.
      by apply Hfresh, list_elem_of_further. }
    destruct (any_keyword_in kws text);
      rewrite IH by auto; rewrite count_true_insert by done; lia.
Qed.

Lemma sections_to_check_NoDup : NoDup sections_to_check.*1.
Proof. apply (bool_decide_unpack _). by vm_compute. Qed.

Lemma hits_le_length items text : (hits items text ≤ List.length items)%nat.
Proof. unfold hits. apply length_filter. Qed.

Lemma hits_mono items t1 t2 :
  substring_of t1 t2 → (hits items t1 ≤ hits items t2)%nat.
Proof.
  intros Hsub. induction items as [|[s kws] items IH]; [done|].
  rewrite !hits_cons.
  destruct (any_keyword_in kws t1) eqn:E1.
  - rewrite (any_keyword_in_mono _ _ _ Hsub E1). lia.
  - destruct (any_keyword_in kws t2); lia.
Qed.

Lemma scan_sections_lookup text section keywords :
  (section, keywords) ∈ sections_to_check →
  (scan_sections text).2 !! section = Some (any_keyword_in keywords text).
Proof. apply scan_loop_lookup, sections_to_check_NoDup. Qed.

Lemma scan_sections_score text :
  (scan_sections text).1 = 20 * Z.of_nat (hits sections_to_check text).
Proof. unfold scan_sections. rewrite scan_loop_score. lia. Qed.

Lemma scan_sections_count text :
  count_true (scan_sections text).2 = hits sections_to_check text.
Proof.
  unfold scan_sections. rewrite scan_loop_count.
  - unfold count_true. by rewrite map_filter_empty, map_size_empty.
  - apply sections_to_check_NoDup.
  - intros. apply lookup_empty.
Qed.

Lemma scan_sections_dom text :
  dom (scan_sections text).2
  = {["objective"; "declaration"; "hobbies"; "achievements"; "projects"]}.
Proof.
  unfold scan_sections. rewrite scan_loop_dom, dom_empty_L. simpl. set_solver.
Qed.

(** C2. For every text [T]: a section is marked present exactly when one
    of its keywords is a substring of the lower-cased text (and absent
    otherwise); the score is 20 times the number of [True] entries of the
    breakdown, hence one of 0, 20, 40, 60, 80, 100. *)
Theorem section_scan_score (T : string) :
  (∀ section keywords, (section, keywords) ∈ sections_to_check →
     ((scan_sections (lower T)).2 !! section = Some true ↔
        ∃ keyword, keyword ∈ keywords ∧ substring_of keyword (lower T)) ∧
     ((scan_sections (lower T)).2 !! section = Some false ↔
        ¬ ∃ keyword, keyword ∈ keywords ∧ substring_of keyword (lower T))) ∧
  (scan_sections (lower T)).1
    = 20 * Z.of_nat (count_true (scan_sections (lower T)).2) ∧
  (scan_sections (lower T)).1 ∈ [0; 20; 40; 60; 80; 100].
Proof.
  split_and!.
  - intros section keywords Hin.
    rewrite (scan_sections_lookup _ _ _ Hin), <- any_keyword_in_true.
    destruct (any_keyword_in keywords (lower T)); split; split; congruence.
  - by rewrite scan_sections_count, scan_sections_score.
  - rewrite scan_sections_score.
    pose proof (hits_le_length sections_to_check (lower T)) as Hle.
    simpl in Hle.
    destruct (hits sections_to_check (lower T)) as [|[|[|[|[|[|n]]]]]];
      [set_solver.. | lia].
Qed.

(** C10. Scanning is monotone under extension of the text: when [T1] is a
    substring of [T2], every section present for [T1] is present for [T2],
    and the score of [T1] is at most the score of [T2]. *)
Theorem section_scan_monotone (T1 T2 : string) :
  substring_of T1 T2 →
  (∀ section,
     (scan_sections (lower T1)).2 !! section = Some true →
     (scan_sections (lower T2)).2 !! section = Some true) ∧
  (scan_sections (lower T1)).1 <= (scan_sections (lower T2)).1.
Proof.
  intros Hsub%substring_of_lower. split.
  - intros section H1.
    assert (section ∈ sections_to_check.*1) as Hin.
    { apply (elem_of_list_to_set (C:=gset string)).
      rewrite <- (union_empty_l_L (list_to_set _)), <- (dom_empty_L (A:=bool)).
      unfold scan_sections in H1. rewrite <- (scan_loop_dom _ (lower T1) 0).
      apply elem_of_dom. eauto. }
    apply list_elem_of_fmap in Hin as ([s keywords] & -> & Hin). simpl in *.
    rewrite (scan_sections_lookup _ _ _ Hin) in H1.
    rewrite (scan_sections_lookup _ _ _ Hin). f_equal.
    apply (any_keyword_in_mono _ _ _ Hsub). congruence.
  - rewrite !scan_sections_score.
    pose proof (hits_mono sections_to_check _ _ Hsub). lia.
Qed.

Lemma section_scan_monotone_witness :
  substring_of "Projects" "My Projects and Awards" ∧
  (scan_sections (lower "Projects")).1
    <= (scan_sections (lower "My Projects and Awards")).1.
Proof.
  assert (substring_of "Projects" "My Projects and Awards") as Hsub.
  { exists "My ", " and Awards". reflexivity. }
  split; [exact Hsub|].
  exact (proj2 (section_scan_monotone "Projects" "My Projects and Awards" Hsub)).
Defined.

(** ** The random module *)

Lemma swap_length {A} (x : list A) i j : List.length (swap x i j) = List.length x.
Proof.
  unfold swap. destruct (x !! i), (x !! j); try done.
  by rewrite !length_insert.
Qed.

Lemma swap_Permutation {A} (x : list A) i j : swap x i j ≡ₚ x.
Proof.
  unfold swap. destruct (x !! i) eqn:Ei, (x !! j) eqn:Ej; try done.
  by apply Permutation_insert_swap.
Qed.

Lemma shuffle_loop_Permutation {A} i (x : list A) g :
  (shuffle_loop i x g).1 ≡ₚ x.
Proof.
  revert x g. induction i as [|i IH]; intros x g; [done|].
  simpl. rewrite IH. apply swap_Permutation.
Qed.

Lemma shuffle_loop_gen {A} i (x : list A) g :
  (shuffle_loop i x g).2 = Rng (source g) (pos g + i).
Proof.
  revert x g. induction i as [|i IH]; intros x g.
  - simpl. destruct g. simpl. f_equal. lia.
  - simpl. rewrite IH. simpl. f_equal. lia.
Qed.

Lemma shuffle_Permutation {A} (x : list A) g : (shuffle x g).1 ≡ₚ x.
Proof. apply shuffle_loop_Permutation. Qed.

Lemma shuffle_length {A} (x : list A) g :
  List.length (shuffle x g).1 = List.length x.
Proof. by rewrite shuffle_Permutation. Qed.

Lemma shuffle_gen {A} (x : list A) g :
  (shuffle x g).2 = Rng (source g) (pos g + (List.length x - 1)).
Proof. apply shuffle_loop_gen. Qed.

(** ** The store *)

Section EngineFacts.

Context {video : Type}.
Implicit Types (g : store video) (s : state video) (c : catalog).

Lemma read_write_catalog c x g : read_catalog c (write_catalog c x g) = x.
Proof. by destruct c. Qed.

Lemma read_write_catalog_ne c c' x g :
  c ≠ c' → read_catalog c' (write_catalog c x g) = read_catalog c' g.
Proof. by destruct c, c'. Qed.

Lemma write_catalog_videos c x g :
  resume_videos video (write_catalog c x g) = resume_videos video g ∧
  interview_videos video (write_catalog c x g) = interview_videos video g.
Proof. by destruct c. Qed.

Lemma write_catalog_Permutation c c' x g :
  x ≡ₚ read_catalog c g →
  read_catalog c' (write_catalog c x g) ≡ₚ read_catalog c' g.
Proof.
  intros Hx. destruct (decide (c = c')) as [<- | Hne].
  - by rewrite read_write_catalog.
  - by rewrite read_write_catalog_ne.
Qed.

(** ** [course_recommender] *)

Lemma course_recommender_run c s :
  course_recommender video c s
  = (inr (course_entry <$>
            take 5 (shuffle (read_catalog c (globals video s)) (gen video s)).1),
     State
       (write_catalog c
          (shuffle (read_catalog c (globals video s)) (gen video s)).1
          (globals video s))
       (shuffle (read_catalog c (globals video s)) (gen video s)).2
       (trace video s)).
Proof.
  unfold course_recommender, bind, get_globals, draw, put_globals, ret.
  by destruct (shuffle _ _).
Qed.

Lemma nth_mod_elem (l : list video) n d :
  l ≠ [] → nth (n mod List.length l) l d ∈ l.
Proof.
  intros Hne. apply list_elem_of_In, nth_In, Nat.mod_upper_bound.
  by destruct l.
Qed.

Lemma pick_elem (videos : list video) n v :
  pick videos n = Some v → v ∈ videos.
Proof.
  destruct videos as [|v0 videos]; [done|]. unfold pick. intros H.
  pose proof (nth_mod_elem (v0 :: videos) n v0 ltac:(done)) as Hin.
  congruence.
Qed.

Lemma pick_None (videos : list video) n : pick videos n = None ↔ videos = [].
Proof. by destruct videos. Qed.

Lemma video_rec_run (videos : list video) s :
  video_rec videos s
  = (inr (pick videos (source (gen video s) (pos (gen video s)))),
     State (globals video s) (after_pick videos (gen video s)) (trace video s)).
Proof.
  destruct videos as [|v videos]; [by destruct s|]. reflexivity.
Qed.

End EngineFacts.

(** ** [analyze_resume] *)

Section AnalyzeFacts.

Context {video : Type} (world : env).
Implicit Types (s : state video) (r : analysis_result video).

(** The run of [analyze_resume] when both collaborators answer, the page
    count is an [int] and the skills can be iterated. *)
Lemma analyze_resume_run p s d text level S :
  get_extracted_data world p = inr (Some d) →
  d ≠ ∅ →
  extract_text world p = inr text →
  cand_level (get d "no_of_pages" (VInt 0)) = inr level →
  skills_lower_of (get d "skills" (VList [])) = inr S →
  let step := recommend (match_field S).2 (globals video s) (gen video s) in
  let rv := resume_videos video step.1.2 in
  let iv := interview_videos video step.1.2 in
  let r1 := step.2 in
  let r2 := after_pick rv r1 in
  analyze_resume video world p s
  = (inr (Analysis
       (AnalysisResult
          (get d "name" VNone) (get d "email" VNone)
          (get d "mobile_number" VNone) (get d "skills" VNone)
          (get d "no_of_pages" (VInt 0)) level
          (match_field S).1.1 (match_field S).1.2 step.1.1
          (scan_sections (lower text)).1 (scan_sections (lower text)).2
          (pick rv (source r1 (pos r1))) (pick iv (source r2 (pos r2)))
          (now world))),
     State step.1.2 (after_pick iv r2)
       (trace video s ++ [ResumeParserCall p; PdfReaderCall p])).
Proof.
  intros Hparse Hd Htext Hlevel Hskills. simpl.
  unfold analyze_resume, bind, try, resume_parser, pdf_reader, bind, log, lift.
  simpl. rewrite Hparse. simpl. rewrite (bool_decide_eq_false_2 _ Hd).
  rewrite Htext. simpl. rewrite Hlevel. simpl. rewrite Hskills. simpl.
  destruct (match_field S) as [[field rec_skills] [c|]]; simpl.
  - rewrite course_recommender_run. simpl.
    destruct (scan_sections (lower text)) as [score breakdown]. simpl.
    unfold get_globals. simpl. rewrite video_rec_run. simpl.
    rewrite video_rec_run. simpl. by rewrite <- app_assoc.
  - destruct (scan_sections (lower text)) as [score breakdown]. simpl.
    unfold get_globals. simpl. rewrite video_rec_run. simpl.
    rewrite video_rec_run. simpl. by rewrite <- app_assoc.
Qed.

End AnalyzeFacts.

Section ErrorPaths.

Context {video : Type} (world : env).
Implicit Types (s : state video).

Lemma analyze_resume_parser_raises p s e :
  get_extracted_data world p = inl e →
  analyze_resume video world p s
  = (inr (ErrorDict ("Error parsing resume with pyresparser: " +:+ exn_text e)),
     State (globals video s) (gen video s)
       (trace video s ++ [ResumeParserCall p])).
Proof.
  intros Hparse.
  unfold analyze_resume, bind, try, resume_parser, bind, log, lift.
  simpl. by rewrite Hparse.
Qed.

Lemma analyze_resume_no_data p s resume_data :
  get_extracted_data world p = inr resume_data →
  falsy resume_data = true →
  analyze_resume video world p s
  = (inr (ErrorDict
       "Could not extract any data from the resume. Is it a valid resume format?"),
     State (globals video s) (gen video s)
       (trace video s ++ [ResumeParserCall p])).
Proof.
  intros Hparse Hfalsy.
  unfold analyze_resume, bind, try, resume_parser, bind, log, lift.
  simpl. rewrite Hparse. simpl. by rewrite Hfalsy.
Qed.

Lemma analyze_resume_reader_raises p s d e :
  get_extracted_data world p = inr (Some d) →
  d ≠ ∅ →
  extract_text world p = inl e →
  analyze_resume video world p s
  = (inl e,
     State (globals video s) (gen video s)
       (trace video s ++ [ResumeParserCall p; PdfReaderCall p])).
Proof.
  intros Hparse Hd Htext.
  unfold analyze_resume, bind, try, resume_parser, pdf_reader, bind, log, lift.
  simpl. rewrite Hparse. simpl. rewrite (bool_decide_eq_false_2 _ Hd).
  rewrite Htext. simpl. by rewrite <- app_assoc.
Qed.

Lemma analyze_resume_level_raises p s d text e :
  get_extracted_data world p = inr (Some d) →
  d ≠ ∅ →
  extract_text world p = inr text →
  cand_level (get d "no_of_pages" (VInt 0)) = inl e →
  (analyze_resume video world p s).1 = inl e.
Proof.
  intros Hparse Hd Htext Hlevel.
  unfold analyze_resume, bind, try, resume_parser, pdf_reader, bind, log, lift.
  simpl. rewrite Hparse. simpl. rewrite (bool_decide_eq_false_2 _ Hd).
  rewrite Htext. simpl. by rewrite Hlevel.
Qed.

Lemma analyze_resume_skills_raises p s d text level e :
  get_extracted_data world p = inr (Some d) →
  d ≠ ∅ →
  extract_text world p = inr text →
  cand_level (get d "no_of_pages" (VInt 0)) = inr level →
  skills_lower_of (get d "skills" (VList [])) = inl e →
  (analyze_resume video world p s).1 = inl e.
Proof.
  intros Hparse Hd Htext Hlevel Hskills.
  unfold analyze_resume, bind, try, resume_parser, pdf_reader, bind, log, lift.
  simpl. rewrite Hparse. simpl. rewrite (bool_decide_eq_false_2 _ Hd).
  rewrite Htext. simpl. rewrite Hlevel. simpl. by rewrite Hskills.
Qed.

(** Every successful evaluation is a run of [analyze_resume_run]. *)
Lemma analyze_resume_success p s r s' :
  analyze_resume video world p s = (inr (Analysis r), s') →
  ∃ d text S,
    get_extracted_data world p = inr (Some d) ∧
    d ≠ ∅ ∧
    extract_text world p = inr text ∧
    cand_level (get d "no_of_pages" (VInt 0)) = inr (candidate_level video r) ∧
    skills_lower_of (get d "skills" (VList [])) = inr S.
Proof.
  intros Hrun.
  destruct (get_extracted_data world p) as [e | resume_data] eqn:Hparse.
  { rewrite (analyze_resume_parser_raises _ _ _ Hparse) in Hrun. discriminate. }
  destruct (falsy resume_data) eqn:Hfalsy.
  { rewrite (analyze_resume_no_data _ _ _ Hparse Hfalsy) in Hrun. discriminate. }
  destruct resume_data as [d|]; [|discriminate]. simpl in Hfalsy.
  apply bool_decide_eq_false in Hfalsy.
  destruct (extract_text world p) as [e | text] eqn:Htext.
  { rewrite (analyze_resume_reader_raises _ _ _ _ Hparse Hfalsy Htext) in Hrun.
    discriminate. }
  destruct (cand_level (get d "no_of_pages" (VInt 0))) as [e | level] eqn:Hlevel.
  { pose proof (analyze_resume_level_raises _ s _ _ _ Hparse Hfalsy Htext Hlevel)
      as Hraise. rewrite Hrun in Hraise. discriminate. }
  destruct (skills_lower_of (get d "skills" (VList []))) as [e | S] eqn:Hskills.
  { pose proof (analyze_resume_skills_raises _ s _ _ _ _
                  Hparse Hfalsy Htext Hlevel Hskills) as Hraise.
    rewrite Hrun in Hraise. discriminate. }
  exists d, text, S. split_and!; try done.
  pose proof (analyze_resume_run world p s d text level S
                Hparse Hfalsy Htext Hlevel Hskills) as Heq.
  simpl in Heq. rewrite Hrun in Heq. by simplify_eq.
Qed.

End ErrorPaths.

(** ** Error handling of [analyze_resume] *)

(** C7. When the structured extractor raises, or returns [None] or an
    empty record, [analyze_resume] returns the error result at once: the
    reason is the parsing message followed by the text of the exception,
    or the message that no data could be extracted; the store and the
    generator are untouched and the only call recorded is the one of the
    extractor, so [pdf_reader] is not invoked. *)
Theorem analyze_resume_extractor_failure {video : Type} (world : env)
    (p : string) (s : state video) :
  (∀ e, get_extracted_data world p = inl e →
     analyze_resume video world p s
     = (inr (ErrorDict
               ("Error parsing resume with pyresparser: " +:+ exn_text e)),
        State (globals video s) (gen video s)
          (trace video s ++ [ResumeParserCall p])) ∧
     substring_of (exn_text e)
       ("Error parsing resume with pyresparser: " +:+ exn_text e)) ∧
  (∀ resume_data,
     get_extracted_data world p = inr resume_data →
     falsy resume_data = true →
     analyze_resume video world p s
     = (inr (ErrorDict
          "Could not extract any data from the resume. Is it a valid resume format?"),
        State (globals video s) (gen video s)
          (trace video s ++ [ResumeParserCall p]))) ∧
  (∀ q, PdfReaderCall q ∉ [ResumeParserCall p]).
Proof.
  split_and!.
  - intros e Hparse. split.
    + by apply analyze_resume_parser_raises.
    + exists "Error parsing resume with pyresparser: ", "".
      by rewrite app_empty_r.
  - intros resume_data Hparse Hfalsy.
    by apply analyze_resume_no_data with (resume_data := resume_data).
  - intros q Hin. apply list_elem_of_singleton in Hin. discriminate.
Qed.

Lemma analyze_resume_extractor_failure_witness :
  analyze_resume string corrupt_world "cv.pdf" sample_state
  = (inr (ErrorDict "Error parsing resume with pyresparser: corrupt file"),
     State sample_store (Rng (λ _, 0%nat) 0) [ResumeParserCall "cv.pdf"]) ∧
  analyze_resume string blank_world "cv.pdf" sample_state
  = (inr (ErrorDict
       "Could not extract any data from the resume. Is it a valid resume format?"),
     State sample_store (Rng (λ _, 0%nat) 0) [ResumeParserCall "cv.pdf"]).
Proof.
  split.
  - destruct (analyze_resume_extractor_failure corrupt_world "cv.pdf"
                sample_state) as (Hraise & _ & _).
    exact (proj1 (Hraise (Exn "Exception" "corrupt file") eq_refl)).
  - destruct (analyze_resume_extractor_failure blank_world "cv.pdf"
                sample_state) as (_ & Hnone & _).
    exact (Hnone None eq_refl eq_refl).
Defined.

(** C4, as the code has it. When the structured extractor answers with a
    usable record and the text extraction raises [e], [analyze_resume]
    returns no error result: [e] itself leaves [analyze_resume], after both
    collaborators were called and with the store untouched, and the try
    block of the route answers 500 with a fixed message that does not hold
    the text of [e]. *)
Theorem analyze_resume_reader_failure {video : Type} (world : env)
    (p : string) (s : state video) (d : gmap string value) (e : exn) :
  get_extracted_data world p = inr (Some d) →
  d ≠ ∅ →
  extract_text world p = inl e →
  analyze_resume video world p s
  = (inl e,
     State (globals video s) (gen video s)
       (trace video s ++ [ResumeParserCall p; PdfReaderCall p])) ∧
  analyze_route_try video world p s
  = (inr (ErrorBody "An unexpected server error occurred during analysis.", 500),
     State (globals video s) (gen video s)
       (trace video s ++ [ResumeParserCall p; PdfReaderCall p])).
Proof.
  intros Hparse Hd Htext.
  pose proof (analyze_resume_reader_raises world p s d e Hparse Hd Htext) as Hrun.
  split; [done|]. unfold analyze_route_try, bind, try. by rewrite Hrun.
Qed.

Lemma sample_record_nonempty : sample_record ≠ ∅.
Proof. unfold sample_record. apply insert_non_empty. Qed.

Lemma analyze_resume_reader_failure_witness :
  analyze_resume string unreadable_world "cv.pdf" sample_state
  = (inl (Exn "PDFSyntaxError" "No /Root object! - Is this really a PDF?"),
     State sample_store (Rng (λ _, 0%nat) 0)
       [ResumeParserCall "cv.pdf"; PdfReaderCall "cv.pdf"]).
Proof.
  apply (analyze_resume_reader_failure unreadable_world "cv.pdf" sample_state
           sample_record
           (Exn "PDFSyntaxError" "No /Root object! - Is this really a PDF?")).
  - reflexivity.
  - apply sample_record_nonempty.
  - reflexivity.
Defined.

(** The claim C4 as stated fails: on [unreadable_world] the structured
    extraction succeeds, the text extraction fails, and [analyze_resume]
    raises instead of returning an error result. *)
Lemma reader_failure_not_reported :
  get_extracted_data unreadable_world "cv.pdf" = inr (Some sample_record) ∧
  sample_record ≠ ∅ ∧
  extract_text unreadable_world "cv.pdf"
  = inl (Exn "PDFSyntaxError" "No /Root object! - Is this really a PDF?") ∧
  ¬ reader_failure_reported unreadable_world "cv.pdf" sample_state
      (Exn "PDFSyntaxError" "No /Root object! - Is this really a PDF?").
Proof.
  split_and!; [reflexivity | apply sample_record_nonempty | reflexivity |].
  intros (reason & s' & Hrun & _).
  rewrite (analyze_resume_reader_raises unreadable_world "cv.pdf" sample_state
             sample_record _ eq_refl sample_record_nonempty eq_refl) in Hrun.
  discriminate.
Qed.

(** ** Recommendation sampling *)

#[local] Instance course_entry_inj : Inj (=) (=) course_entry.
Proof. intros [n1 l1] [n2 l2] H. by injection H as -> ->. Qed.

Section Sampling.

Context {video : Type}.
Implicit Types (s : state video) (c : catalog).

(** One call: the courses are the first five entries of the catalog as
    the shuffle leaves it, and the shuffle permutes that one catalog. *)
Lemma course_recommender_spec c s :
  ∃ cs s',
    course_recommender video c s = (inr cs, s') ∧
    cs = course_entry <$> take 5 (read_catalog c (globals video s')) ∧
    List.length cs = (5 `min` List.length (read_catalog c (globals video s)))%nat ∧
    cs ⊆+ course_entry <$> read_catalog c (globals video s) ∧
    (∀ c', read_catalog c' (globals video s')
           ≡ₚ read_catalog c' (globals video s)) ∧
    resume_videos video (globals video s')
      = resume_videos video (globals video s) ∧
    interview_videos video (globals video s')
      = interview_videos video (globals video s) ∧
    trace video s' = trace video s.
Proof.
  eexists _, _. split; [apply course_recommender_run|]. simpl.
  pose proof (shuffle_Permutation (read_catalog c (globals video s))
                (gen video s)) as Hperm.
  set (x := (shuffle (read_catalog c (globals video s)) (gen video s)).1) in *.
  clearbody x.
  split_and!.
  - by rewrite read_write_catalog.
  - by rewrite length_fmap, length_take, Hperm.
  - rewrite <- Hperm. apply fmap_submseteq, submseteq_take.
  - intros c'. by apply write_catalog_Permutation.
  - apply write_catalog_videos.
  - apply write_catalog_videos.
  - done.
Qed.

End Sampling.

(** C3, as the code has it. For every sequence of requests, every call of
    [course_recommender] succeeds and returns exactly [min 5 (len catalog)]
    entries, which are entries of the requested catalog taken at distinct
    positions (a sub-multiset of it, hence without duplicates when the
    catalog has none). The calls shuffle the requested catalogs in place:
    after any number of calls every catalog is a permutation of what it
    was, so its length and membership are unchanged while its order need
    not be; the video lists and the call trace are untouched. *)
Theorem recommend_all_permutes {video : Type}
    (requests : list catalog) (s : state video) :
  ∃ rs s',
    recommend_all requests s = (inr rs, s') ∧
    Forall2
      (λ c cs,
         List.length cs
           = (5 `min` List.length (read_catalog c (globals video s)))%nat ∧
         cs ⊆+ course_entry <$> read_catalog c (globals video s) ∧
         (NoDup (read_catalog c (globals video s)) → NoDup cs))
      requests rs ∧
    (∀ c, read_catalog c (globals video s')
          ≡ₚ read_catalog c (globals video s)) ∧
    (∀ c, List.length (read_catalog c (globals video s'))
          = List.length (read_catalog c (globals video s))) ∧
    (∀ c entry, entry ∈ read_catalog c (globals video s')
                ↔ entry ∈ read_catalog c (globals video s)) ∧
    resume_videos video (globals video s')
      = resume_videos video (globals video s) ∧
    interview_videos video (globals video s')
      = interview_videos video (globals video s) ∧
    trace video s' = trace video s.
Proof.
  assert (∃ rs s',
    recommend_all requests s = (inr rs, s') ∧
    Forall2
      (λ c cs,
         List.length cs
           = (5 `min` List.length (read_catalog c (globals video s)))%nat ∧
         cs ⊆+ course_entry <$> read_catalog c (globals video s))
      requests rs ∧
    (∀ c, read_catalog c (globals video s')
          ≡ₚ read_catalog c (globals video s)) ∧
    resume_videos video (globals video s')
      = resume_videos video (globals video s) ∧
    interview_videos video (globals video s')
      = interview_videos video (globals video s) ∧
    trace video s' = trace video s) as (rs & s' & Hrun & Hall & Hperm & Hrest).
  { revert s. induction requests as [|c requests IH]; intros s.
    - exists [], s. split_and!; first [done | constructor].
    - destruct (course_recommender_spec c s)
        as (cs & s1 & Hrun1 & _ & Hlen & Hsub & Hperm1 & Hrv1 & Hiv1 & Htr1).
      destruct (IH s1) as (rs & s' & Hrun & Hall & Hperm & Hrv & Hiv & Htr).
      exists (cs :: rs), s'. split_and!.
      + simpl. unfold bind. rewrite Hrun1. by rewrite Hrun.
      + constructor; [done|].
        eapply Forall2_impl; [exact Hall|]. intros c' cs' [Hl Hs].
        by rewrite <- (Hperm1 c').
      + intros c'. by rewrite Hperm, Hperm1.
      + congruence.
      + congruence.
      + congruence. }
  exists rs, s'. split_and!; try done.
  - eapply Forall2_impl; [exact Hall|]. intros c cs [Hl Hs].
    split_and!; [done..|]. intros Hnd.
    apply submseteq_Permutation in Hs as [k Hk].
    apply (NoDup_fmap_2 course_entry) in Hnd. rewrite Hk in Hnd.
    by apply NoDup_app in Hnd as [? _].
  - intros c. by rewrite Hperm.
  - intros c entry. by rewrite Hperm.
  - apply Hrest.
  - apply Hrest.
  - apply Hrest.
Qed.

(** The claim C3 as stated fails: one call on a catalog of two courses
    with a draw of 0 leaves the catalog in the other order. *)
Lemma catalog_not_kept :
  read_catalog DsCourse (globals string sample_state)
    = [("a", "la"); ("b", "lb")] ∧
  (∃ cs s',
     course_recommender string DsCourse sample_state = (inr cs, s') ∧
     read_catalog DsCourse (globals string s') = [("b", "lb"); ("a", "la")]) ∧
  ¬ catalog_kept DsCourse sample_state.
Proof.
  split_and!.
  - reflexivity.
  - eexists _, _. split; reflexivity.
  - intros (cs & s' & Hrun & _ & _ & _ & Hsame).
    vm_compute in Hrun. injection Hrun as _ <-. discriminate.
Qed.

(** ** The result of a successful evaluation *)

Lemma match_field_catalog S :
  catalog_of_field (match_field S).1.1 = (match_field S).2 ∧
  ((match_field S).1.1 = "Other" ↔ (match_field S).2 = None).
Proof.
  unfold match_field.
  repeat (destruct (any_in _ S); [by repeat split|]). by repeat split.
Qed.

Section Results.

Context {video : Type} (world : env).
Implicit Types (s : state video) (r : analysis_result video).

Lemma recommend_length cat (g : store video) rg :
  List.length (recommend cat g rg).1.1
  = match cat with
    | Some c => (5 `min` List.length (read_catalog c g))%nat
    | None => 0%nat
    end.
Proof.
  destruct cat as [c|]; [|done]. simpl.
  by rewrite length_fmap, length_take, shuffle_length.
Qed.

Lemma recommend_videos cat (g : store video) rg :
  resume_videos video (recommend cat g rg).1.2 = resume_videos video g ∧
  interview_videos video (recommend cat g rg).1.2 = interview_videos video g.
Proof. destruct cat as [c|]; [apply write_catalog_videos | done]. Qed.

Lemma recommend_catalog_length cat (g : store video) rg c :
  List.length (read_catalog c (recommend cat g rg).1.2)
  = List.length (read_catalog c g).
Proof.
  destruct cat as [c'|]; [|done]. simpl.
  rewrite write_catalog_Permutation; [done|]. apply shuffle_Permutation.
Qed.

Lemma recommend_gen cat (g : store video) rg :
  source (recommend cat g rg).2 = source rg.
Proof. destruct cat as [c|]; [|done]. simpl. by rewrite shuffle_gen. Qed.

(** A successful evaluation, field by field. *)
Lemma analyze_resume_result p s r s' :
  analyze_resume video world p s = (inr (Analysis r), s') →
  ∃ d text S,
    extract_text world p = inr text ∧
    skills_lower_of (get d "skills" (VList [])) = inr S ∧
    predicted_field video r = reco_field S ∧
    recommended_courses video r
      = (recommend (match_field S).2 (globals video s) (gen video s)).1.1 ∧
    globals video s'
      = (recommend (match_field S).2 (globals video s) (gen video s)).1.2 ∧
    resume_score video r = (scan_sections (lower text)).1 ∧
    score_breakdown video r = (scan_sections (lower text)).2 ∧
    let r1 := (recommend (match_field S).2 (globals video s) (gen video s)).2 in
    let rv := resume_videos video (globals video s) in
    let iv := interview_videos video (globals video s) in
    resume_video_rec video r = pick rv (source r1 (pos r1)) ∧
    interview_video_rec video r
      = pick iv (source r1 (pos (after_pick rv r1))).
Proof.
  intros Hrun.
  destruct (analyze_resume_success world p s r s' Hrun)
    as (d & text & S & Hparse & Hd & Htext & Hlevel & Hskills).
  pose proof (analyze_resume_run world p s d text _ S
                Hparse Hd Htext Hlevel Hskills) as Heq.
  simpl in Heq. rewrite Hrun in Heq.
  destruct (recommend_videos (match_field S).2 (globals video s) (gen video s))
    as [Hrv Hiv].
  rewrite Hrv, Hiv in Heq.
  exists d, text, S. simplify_eq. simpl.
  split_and!; try done; try (by rewrite H).
  rewrite H. simpl. by destruct (resume_videos video (globals video s)).
Qed.

End Results.

(** C6. For every successful evaluation the number of recommended courses
    is [min 5 (len catalog)] for the catalog of the predicted field, and
    there is no course when the predicted field is ["Other"]. *)
Theorem recommended_courses_length {video : Type} (world : env)
    (p : string) (s s' : state video) (r : analysis_result video) :
  analyze_resume video world p s = (inr (Analysis r), s') →
  (predicted_field video r = "Other" → recommended_courses video r = []) ∧
  (predicted_field video r ≠ "Other" →
     ∃ c, catalog_of_field (predicted_field video r) = Some c ∧
          List.length (recommended_courses video r)
          = (5 `min` List.length (read_catalog c (globals video s)))%nat ∧
          List.length (read_catalog c (globals video s'))
          = List.length (read_catalog c (globals video s))).
Proof.
  intros Hrun.
  destruct (analyze_resume_result world p s r s' Hrun)
    as (d & text & S & _ & _ & Hfield & Hcourses & Hglobals & _).
  destruct (match_field_catalog S) as [Hcat Hother].
  unfold reco_field in Hfield. rewrite <- Hfield in Hcat, Hother.
  split.
  - intros Hf. apply Hother in Hf. rewrite Hcourses, Hf. done.
  - intros Hf. destruct (match_field S).2 as [c|] eqn:Hc.
    + exists c. split_and!; [done | |].
      * by rewrite Hcourses, recommend_length.
      * by rewrite Hglobals, recommend_catalog_length.
    + by destruct Hf, (proj2 Hother).
Qed.

(** C9. For every successful evaluation the breakdown has exactly the
    five keys objective, declaration, hobbies, achievements and projects,
    each bound to a boolean. *)
Theorem score_breakdown_keys {video : Type} (world : env)
    (p : string) (s s' : state video) (r : analysis_result video) :
  analyze_resume video world p s = (inr (Analysis r), s') →
  dom (score_breakdown video r)
  = {["objective"; "declaration"; "hobbies"; "achievements"; "projects"]} ∧
  ∀ section,
    section ∈ ["objective"; "declaration"; "hobbies"; "achievements"; "projects"]
    ↔ ∃ b : bool, score_breakdown video r !! section = Some b.
Proof.
  intros Hrun.
  destruct (analyze_resume_result world p s r s' Hrun)
    as (d & text & S & _ & _ & _ & _ & _ & _ & Hbreakdown & _).
  rewrite Hbreakdown.
  pose proof (scan_sections_dom (lower text)) as Hdom.
  split; [done|]. intros section.
  transitivity (section ∈ dom (scan_sections (lower text)).2).
  - rewrite Hdom. set_solver.
  - apply elem_of_dom.
Qed.

(** C8. Whenever the collaborators answer and the record is well formed,
    the evaluation succeeds whatever the two video lists hold: an empty
    list gives no recommendation ([None]) and not an error, a list with
    entries gives one of its entries; the two recommendations come from
    two separate draws of the generator, and both lists are the same after
    the evaluation. *)
Theorem video_recommendations {video : Type} (world : env)
    (p : string) (s : state video) (d : gmap string value) (text : string)
    (level : string) (S : gset string) :
  get_extracted_data world p = inr (Some d) →
  d ≠ ∅ →
  extract_text world p = inr text →
  cand_level (get d "no_of_pages" (VInt 0)) = inr level →
  skills_lower_of (get d "skills" (VList [])) = inr S →
  ∃ r s',
    analyze_resume video world p s = (inr (Analysis r), s') ∧
    let rv := resume_videos video (globals video s) in
    let iv := interview_videos video (globals video s) in
    (rv = [] → resume_video_rec video r = None) ∧
    (rv ≠ [] → ∃ v, resume_video_rec video r = Some v ∧ v ∈ rv) ∧
    (iv = [] → interview_video_rec video r = None) ∧
    (iv ≠ [] → ∃ v, interview_video_rec video r = Some v ∧ v ∈ iv) ∧
    resume_videos video (globals video s') = rv ∧
    interview_videos video (globals video s') = iv ∧
    ∃ k,
      resume_video_rec video r = pick rv (source (gen video s) k) ∧
      interview_video_rec video r
      = pick iv (source (gen video s) (if rv is [] then k else Datatypes.S k)).
Proof.
  intros Hparse Hd Htext Hlevel Hskills.
  pose proof (analyze_resume_run world p s d text level S
                Hparse Hd Htext Hlevel Hskills) as Hrun.
  simpl in Hrun. eexists _, _. split; [exact Hrun|]. simpl.
  destruct (recommend_videos (match_field S).2 (globals video s) (gen video s))
    as [Hrv Hiv].
  rewrite Hrv, Hiv.
  set (rv := resume_videos video (globals video s)).
  set (iv := interview_videos video (globals video s)).
  set (r1 := (recommend (match_field S).2 (globals video s) (gen video s)).2).
  assert (source r1 = source (gen video s)) as Hsrc by apply recommend_gen.
  split_and!; try done.
  - by intros ->.
  - intros Hne. destruct (pick rv (source r1 (pos r1))) as [v|] eqn:Hpick.
    + exists v. split; [done|]. by apply pick_elem in Hpick.
    + by apply pick_None in Hpick.
  - by intros ->.
  - intros Hne.
    destruct (pick iv (source (after_pick rv r1) (pos (after_pick rv r1))))
      as [v|] eqn:Hpick.
    + exists v. split; [done|]. by apply pick_elem in Hpick.
    + by apply pick_None in Hpick.
  - exists (pos r1). rewrite <- Hsrc. split; [done|]. by destruct rv.
Qed.

Lemma pick_lookup {video : Type} (videos : list video) n :
  (n < List.length videos)%nat → pick videos n = videos !! n.
Proof.
  intros Hn. destruct videos as [|v videos]; [simpl in Hn; lia|].
  unfold pick. rewrite Nat.mod_small by done.
  destruct (lookup_lt_is_Some_2 _ _ Hn) as [x Hx].
  by rewrite Hx, nth_lookup, Hx.
Qed.

(** The two draws are separate: for any entry of the one list and any
    entry of the other there is a stream of draws under which the
    evaluation recommends that pair. *)
Lemma video_picks_any_pair {video : Type} (world : env) (p : string)
    (g : store video) (n : nat) (tr : list event)
    (d : gmap string value) (text level : string) (S : gset string)
    (i j : nat) :
  get_extracted_data world p = inr (Some d) →
  d ≠ ∅ →
  extract_text world p = inr text →
  cand_level (get d "no_of_pages" (VInt 0)) = inr level →
  skills_lower_of (get d "skills" (VList [])) = inr S →
  (i < List.length (resume_videos video g))%nat →
  (j < List.length (interview_videos video g))%nat →
  ∃ src r s',
    analyze_resume video world p (State g (Rng src n) tr)
    = (inr (Analysis r), s') ∧
    resume_video_rec video r = resume_videos video g !! i ∧
    interview_video_rec video r = interview_videos video g !! j.
Proof.
  intros Hparse Hd Htext Hlevel Hskills Hi Hj.
  set (k := match (match_field S).2 with
            | Some c => (n + (List.length (read_catalog c g) - 1))%nat
            | None => n
            end).
  set (src := λ m : nat, if (m =? k)%nat then i else j).
  pose proof (analyze_resume_run world p (State g (Rng src n) tr) d text level S
                Hparse Hd Htext Hlevel Hskills) as Hrun.
  simpl in Hrun. exists src. eexists _, _. split; [exact Hrun|]. simpl.
  destruct (recommend_videos (match_field S).2 g (Rng src n)) as [Hrv Hiv].
  rewrite Hrv, Hiv.
  assert ((recommend (match_field S).2 g (Rng src n)).2 = Rng src k) as ->.
  { unfold k. destruct (match_field S).2 as [c|]; [|done]. simpl.
    by rewrite shuffle_gen. }
  assert (after_pick (resume_videos video g) (Rng src k)
          = Rng src (Datatypes.S k)) as ->.
  { destruct (resume_videos video g); [simpl in Hi; lia | done]. }
  assert (src k = i) as Hsi by (unfold src; by rewrite Nat.eqb_refl).
  assert (src (Datatypes.S k) = j) as Hsj.
  { unfold src. destruct (Nat.eqb_spec (Datatypes.S k) k); [lia | done]. }
  simpl. rewrite Hsi, Hsj. split; by apply pick_lookup.
Qed.

(** X14. Without Courses.py (line 28: every list is [[]]) a successful
    evaluation recommends no course and no video. *)
Lemma analyze_resume_without_courses {video : Type} (world : env)
    (p : string) (s s' : state video) (r : analysis_result video) :
  globals video s = empty_store →
  analyze_resume video world p s = (inr (Analysis r), s') →
  recommended_courses video r = [] ∧
  resume_video_rec video r = None ∧
  interview_video_rec video r = None.
Proof.
  intros Hg Hrun.
  destruct (analyze_resume_result world p s r s' Hrun)
    as (d & text & S & _ & _ & _ & Hcourses & _ & _ & _ & Hrv & Hiv).
  rewrite Hcourses, Hrv, Hiv, Hg. split; [|done].
  by destruct (match_field S).2 as [[]|].
Qed.

(** ** Evaluations of the sample inputs *)

Lemma sample_run :
  ∃ r s',
    analyze_resume string sample_world "cv.pdf" sample_state
    = (inr (Analysis r), s') ∧
    candidate_level string r = "Fresher" ∧
    predicted_field string r = "Data Science" ∧
    recommended_courses string r = [Course "b" "lb"; Course "a" "la"] ∧
    resume_score string r = 40 ∧
    resume_video_rec string r = Some "v1" ∧
    interview_video_rec string r = None.
Proof.
  pose proof (analyze_resume_run (video:=string) sample_world "cv.pdf"
                sample_state sample_record "My Projects and Certifications"
                _ _ eq_refl sample_record_nonempty eq_refl eq_refl eq_refl)
    as Hrun.
  eexists _, _. split; [exact Hrun|]. clear Hrun. vm_compute. repeat split.
Qed.

Lemma recommended_courses_length_witness :
  ∃ r s',
    analyze_resume string sample_world "cv.pdf" sample_state
    = (inr (Analysis r), s') ∧
    ∃ c, catalog_of_field (predicted_field string r) = Some c ∧
         List.length (recommended_courses string r)
         = (5 `min` List.length (read_catalog c sample_store))%nat.
Proof.
  destruct sample_run as (r & s' & Hrun & _ & Hfield & _).
  exists r, s'. split; [exact Hrun|].
  destruct (recommended_courses_length sample_world "cv.pdf" sample_state s' r
              Hrun) as [_ Hlen].
  destruct Hlen as (c & Hc & Hl & _).
  - rewrite Hfield. discriminate.
  - exists c. split; [exact Hc | exact Hl].
Defined.

Lemma score_breakdown_keys_witness :
  ∃ r s',
    analyze_resume string sample_world "cv.pdf" sample_state
    = (inr (Analysis r), s') ∧
    dom (score_breakdown string r)
    = {["objective"; "declaration"; "hobbies"; "achievements"; "projects"]}.
Proof.
  destruct sample_run as (r & s' & Hrun & _).
  exists r, s'. split; [exact Hrun|].
  exact (proj1 (score_breakdown_keys sample_world "cv.pdf" sample_state s' r
                  Hrun)).
Defined.

Lemma video_recommendations_witness :
  ∃ r s',
    analyze_resume string sample_world "cv.pdf" sample_state
    = (inr (Analysis r), s') ∧
    interview_video_rec string r = None ∧
    ∃ v, resume_video_rec string r = Some v ∧ v ∈ ["v1"; "v2"].
Proof.
  destruct (video_recommendations (video:=string) sample_world "cv.pdf"
              sample_state sample_record "My Projects and Certifications"
              _ _ eq_refl sample_record_nonempty eq_refl eq_refl eq_refl)
    as (r & s' & Hrun & _ & Hrv & Hiv & _).
  exists r, s'. split; [exact Hrun|]. split.
  - apply Hiv. reflexivity.
  - apply Hrv. discriminate.
Defined.

(** The scenarios of the specification. *)
Example scenario_data_science :
  (scan_sections (lower "My Projects and Certifications")).1 = 40 ∧
  (λ section,
     (scan_sections (lower "My Projects and Certifications")).2 !! section)
    <$> ["objective"; "declaration"; "hobbies"; "achievements"; "projects"]
  = [Some false; Some false; Some false; Some true; Some true] ∧
  reco_field {["python"; "tensorflow"]} = "Data Science" ∧
  cand_level_of 1 = "Fresher".
Proof. vm_compute. repeat split. Qed.

Example scenario_other :
  ∃ r s',
    analyze_resume string excel_world "cv.pdf" sample_state
    = (inr (Analysis r), s') ∧
    predicted_field string r = "Other" ∧
    candidate_level string r = "Experienced" ∧
    recommended_courses string r = [] ∧
    globals string s' = sample_store.
Proof.
  eexists _, _. split; [vm_compute; reflexivity|]. vm_compute. repeat split.
Qed.

Example scenario_corrupt_file :
  ∃ reason s',
    analyze_resume string corrupt_world "cv.pdf" sample_state
    = (inr (ErrorDict reason), s') ∧
    substring_of "corrupt file" reason ∧
    trace string s' = [ResumeParserCall "cv.pdf"].
Proof.
  eexists _, _. split; [vm_compute; reflexivity|]. split; [|reflexivity].
  exists "Error parsing resume with pyresparser: ", "". reflexivity.
Qed.

(** * Further properties of the engine *)

Section Outcomes.

Context {video : Type} (world : env).
Implicit Types (s : state video) (r : analysis_result video).

Lemma analyze_resume_level_raises_state p s d text e :
  get_extracted_data world p = inr (Some d) →
  d ≠ ∅ →
  extract_text world p = inr text →
  cand_level (get d "no_of_pages" (VInt 0)) = inl e →
  analyze_resume video world p s
  = (inl e,
     State (globals video s) (gen video s)
       (trace video s ++ [ResumeParserCall p; PdfReaderCall p])).
Proof.
  intros Hparse Hd Htext Hlevel.
  unfold analyze_resume, bind, try, resume_parser, pdf_reader, bind, log, lift.
  simpl. rewrite Hparse. simpl. rewrite (bool_decide_eq_false_2 _ Hd).
  rewrite Htext. simpl. rewrite Hlevel. simpl. by rewrite <- app_assoc.
Qed.

Lemma analyze_resume_skills_raises_state p s d text level e :
  get_extracted_data world p = inr (Some d) →
  d ≠ ∅ →
  extract_text world p = inr text →
  cand_level (get d "no_of_pages" (VInt 0)) = inr level →
  skills_lower_of (get d "skills" (VList [])) = inl e →
  analyze_resume video world p s
  = (inl e,
     State (globals video s) (gen video s)
       (trace video s ++ [ResumeParserCall p; PdfReaderCall p])).
Proof.
  intros Hparse Hd Htext Hlevel Hskills.
  unfold analyze_resume, bind, try, resume_parser, pdf_reader, bind, log, lift.
  simpl. rewrite Hparse. simpl. rewrite (bool_decide_eq_false_2 _ Hd).
  rewrite Htext. simpl. rewrite Hlevel. simpl. rewrite Hskills. simpl.
  by rewrite <- app_assoc.
Qed.

Lemma analyze_resume_outcome p s :
  outcome_of world p s (analyze_resume video world p s).
Proof.
  destruct (get_extracted_data world p) as [e | resume_data] eqn:Hparse.
  { rewrite (analyze_resume_parser_raises _ _ _ _ Hparse). by constructor. }
  destruct (falsy resume_data) eqn:Hfalsy.
  { rewrite (analyze_resume_no_data _ _ _ _ Hparse Hfalsy).
    by apply NoData with resume_data. }
  destruct resume_data as [d|]; [|discriminate]. simpl in Hfalsy.
  apply bool_decide_eq_false in Hfalsy.
  destruct (extract_text world p) as [e | text] eqn:Htext.
  { rewrite (analyze_resume_reader_raises _ _ _ _ _ Hparse Hfalsy Htext).
    apply Raised with d; auto. }
  destruct (cand_level (get d "no_of_pages" (VInt 0))) as [e | level] eqn:Hlevel.
  { rewrite (analyze_resume_level_raises_state _ _ _ _ _
               Hparse Hfalsy Htext Hlevel).
    apply Raised with d; eauto. }
  destruct (skills_lower_of (get d "skills" (VList []))) as [e | S] eqn:Hskills.
  { rewrite (analyze_resume_skills_raises_state _ _ _ _ _ _
               Hparse Hfalsy Htext Hlevel Hskills).
    apply Raised with d; eauto 10. }
  pose proof (analyze_resume_run world p s d text level S
                Hparse Hfalsy Htext Hlevel Hskills) as Hrun.
  simpl in Hrun. rewrite Hrun.
  eapply Analysed; eauto.
Qed.

End Outcomes.

(** X1. [analyze_resume] returns an error result exactly when the
    structured extractor fails (it raises, or returns [None] or an empty
    record): no other failure is turned into an error result. *)
Theorem error_result_iff_extractor_fails {video : Type} (world : env)
    (p : string) (s : state video) :
  (∃ reason s',
     analyze_resume video world p s = (inr (ErrorDict reason), s'))
  ↔ extractor_fails world p.
Proof.
  unfold extractor_fails. split.
  - intros (reason & s' & Hrun).
    pose proof (analyze_resume_outcome world p s) as Hout.
    rewrite Hrun in Hout.
    inversion Hout as [e Hp | rd Hp Hf | |]; by rewrite Hp.
  - destruct (get_extracted_data world p) as [e | rd] eqn:Hparse.
    + intros _. eexists _, _. by apply analyze_resume_parser_raises.
    + intros Hf. eexists _, _. by apply analyze_resume_no_data with rd.
Qed.

(** X2. [analyze_resume] raises exactly when the extractor gave a usable
    record and then the text extraction raises, or the page count is not
    an [int], or the skills cannot be iterated; whenever it raises, the
    store and the generator are as they were. *)
Theorem analyze_resume_raises_iff {video : Type} (world : env)
    (p : string) (s : state video) :
  ((∃ e s', analyze_resume video world p s = (inl e, s'))
   ↔ ∃ d, get_extracted_data world p = inr (Some d) ∧ d ≠ ∅ ∧
          ((∃ e, extract_text world p = inl e) ∨
           (∃ e, cand_level (get d "no_of_pages" (VInt 0)) = inl e) ∨
           (∃ e, skills_lower_of (get d "skills" (VList [])) = inl e))) ∧
  (∀ e s', analyze_resume video world p s = (inl e, s') →
     globals video s' = globals video s ∧ gen video s' = gen video s).
Proof.
  pose proof (analyze_resume_outcome world p s) as Hout. split; [split|].
  - intros (e & s' & Hrun). rewrite Hrun in Hout.
    inversion Hout as [| | d e' Hp Hd Hwhy |]; subst.
    exists d. split_and!; [done..|].
    destruct Hwhy as [? | (text & ? & [? | (level & ? & ?)])]; eauto.
  - intros (d & Hp & Hd & Hwhy).
    destruct (extract_text world p) as [e | text] eqn:Htext.
    { eexists _, _. by apply analyze_resume_reader_raises with d. }
    destruct (cand_level (get d "no_of_pages" (VInt 0)))
      as [e | level] eqn:Hlevel.
    { eexists _, _. by apply analyze_resume_level_raises_state with d text. }
    destruct (skills_lower_of (get d "skills" (VList []))) as [e | S] eqn:Hsk.
    { eexists _, _.
      by apply analyze_resume_skills_raises_state with d text level. }
    by destruct Hwhy as [[? ?] | [[? ?] | [? ?]]].
  - intros e s' Hrun. rewrite Hrun in Hout.
    by inversion Hout.
Qed.

(** X3. The extractor is called first, once, on the given path, in every
    run; [pdf_reader] is called after it, once, on the same path, exactly
    when the extractor gave a usable record. No other call is made. *)
Theorem analyze_resume_call_protocol {video : Type} (world : env)
    (p : string) (s : state video) :
  (extractor_fails world p ∧
   trace video (analyze_resume video world p s).2
   = (trace video s ++ [ResumeParserCall p])%list) ∨
  (¬ extractor_fails world p ∧
   trace video (analyze_resume video world p s).2
   = (trace video s ++ [ResumeParserCall p; PdfReaderCall p])%list).
Proof.
  pose proof (analyze_resume_outcome world p s) as Hout.
  unfold extractor_fails.
  inversion Hout as [e Hp Heq | rd Hp Hf Heq | d e Hp Hd Hwhy Heq
                    | d text level S r s' Hp Hd Ht Hl Hs Hrun Htr Heq].
  - left. by rewrite Hp.
  - left. by rewrite Hp.
  - right. rewrite Hp. simpl. split; [|done].
    intros Hf. by apply bool_decide_eq_true in Hf.
  - right. rewrite Hp. simpl. split; [|done].
    intros Hf. by apply bool_decide_eq_true in Hf.
Qed.

(** X4. A record whose [no_of_pages] is present and is not an [int] (for
    instance [None]) makes [analyze_resume] raise a [TypeError] at the
    comparison [>= 3], after both collaborators were called and before any
    catalog is shuffled; the route answers 500 with its fixed message. *)
Theorem analyze_resume_page_count_not_int {video : Type} (world : env)
    (p : string) (s : state video) (d : gmap string value) (v : value)
    (text : string) :
  get_extracted_data world p = inr (Some d) →
  d !! "no_of_pages" = Some v →
  (∀ z, v ≠ VInt z) →
  extract_text world p = inr text →
  analyze_resume video world p s
  = (inl (TypeError ("'>=' not supported between instances of '"
                     +:+ type_name v +:+ "' and 'int'")),
     State (globals video s) (gen video s)
       (trace video s ++ [ResumeParserCall p; PdfReaderCall p])) ∧
  (analyze_route_try video world p s).1
  = inr (ErrorBody "An unexpected server error occurred during analysis.", 500).
Proof.
  intros Hparse Hv Hint Htext.
  assert (d ≠ ∅) as Hd by (intros ->; by rewrite lookup_empty in Hv).
  assert (cand_level (get d "no_of_pages" (VInt 0))
          = inl (TypeError ("'>=' not supported between instances of '"
                            +:+ type_name v +:+ "' and 'int'"))) as Hlevel.
  { unfold get. rewrite Hv. simpl.
    destruct v as [|z| |]; try done. by destruct (Hint z). }
  pose proof (analyze_resume_level_raises_state world p s d text _
                Hparse Hd Htext Hlevel) as Hrun.
  split; [done|]. unfold analyze_route_try, bind, try. by rewrite Hrun.
Qed.

Lemma analyze_resume_page_count_not_int_witness :
  (analyze_resume string pageless_world "cv.pdf" sample_state).1
  = inl (TypeError
           "'>=' not supported between instances of 'NoneType' and 'int'").
Proof.
  pose proof (analyze_resume_page_count_not_int pageless_world "cv.pdf"
                sample_state
                (<["skills" := VList ["Python"]]>
                   (<["no_of_pages" := VNone]> ∅))
                VNone "Curriculum" eq_refl eq_refl
                ltac:(discriminate) eq_refl) as [Hrun _].
  rewrite Hrun. reflexivity.
Defined.

(** X5. A record whose [skills] is present and is [None] or an [int],
    with a page count that is an [int], makes [analyze_resume] raise a
    [TypeError] (the value is not iterable), again before any catalog is
    shuffled. *)
Theorem analyze_resume_skills_not_iterable {video : Type} (world : env)
    (p : string) (s : state video) (d : gmap string value) (v : value)
    (z : Z) (text : string) :
  get_extracted_data world p = inr (Some d) →
  d !! "skills" = Some v →
  (v = VNone ∨ ∃ n, v = VInt n) →
  get d "no_of_pages" (VInt 0) = VInt z →
  extract_text world p = inr text →
  analyze_resume video world p s
  = (inl (TypeError ("'" +:+ type_name v +:+ "' object is not iterable")),
     State (globals video s) (gen video s)
       (trace video s ++ [ResumeParserCall p; PdfReaderCall p])).
Proof.
  intros Hparse Hv Hkind Hpages Htext.
  assert (d ≠ ∅) as Hd by (intros ->; by rewrite lookup_empty in Hv).
  apply analyze_resume_skills_raises_state
    with (d := d) (text := text) (level := cand_level_of z); try done.
  - by rewrite Hpages.
  - unfold get. rewrite Hv. simpl. by destruct Hkind as [-> | [n ->]].
Qed.

Lemma analyze_resume_skills_not_iterable_witness :
  (analyze_resume string skill_less_world "cv.pdf" sample_state).1
  = inl (TypeError "'NoneType' object is not iterable").
Proof.
  rewrite (analyze_resume_skills_not_iterable skill_less_world "cv.pdf"
             sample_state
             (<["skills" := VNone]> (<["no_of_pages" := VInt 2]> ∅))
             VNone 2 "Curriculum" eq_refl eq_refl (or_introl eq_refl)
             eq_refl eq_refl).
  reflexivity.
Defined.

Section ResultFields.

Context {video : Type} (world : env).
Implicit Types (s : state video) (r : analysis_result video).

(** The fields of a result that are read off the record and the skills. *)
Lemma analyze_resume_fields p s r s' :
  analyze_resume video world p s = (inr (Analysis r), s') →
  ∃ d z S,
    get_extracted_data world p = inr (Some d) ∧
    get d "no_of_pages" (VInt 0) = VInt z ∧
    skills_lower_of (get d "skills" (VList [])) = inr S ∧
    name video r = get d "name" VNone ∧
    email video r = get d "email" VNone ∧
    mobile_number video r = get d "mobile_number" VNone ∧
    skills video r = get d "skills" VNone ∧
    no_of_pages video r = VInt z ∧
    candidate_level video r = cand_level_of z ∧
    predicted_field video r = (match_field S).1.1 ∧
    recommended_skills video r = (match_field S).1.2 ∧
    timestamp video r = now world.
Proof.
  intros Hrun.
  destruct (analyze_resume_success world p s r s' Hrun)
    as (d & text & S & Hparse & Hd & Htext & Hlevel & Hskills).
  pose proof (analyze_resume_run world p s d text _ S
                Hparse Hd Htext Hlevel Hskills) as Heq.
  simpl in Heq. rewrite Hrun in Heq.
  destruct (get d "no_of_pages" (VInt 0)) as [|z| |] eqn:Hpages;
    try discriminate.
  exists d, z, S. injection Hlevel as Hlevel.
  injection Heq as Hr _. rewrite Hr. simpl. by rewrite Hpages.
Qed.

End ResultFields.

(** X6. A result passes the record through: name, email, mobile number
    and skills are the record's values, [None] for a missing key; the page
    count is the record's, 0 for a missing key; the timestamp is the
    clock's. *)
Theorem analyze_resume_passes_record_through {video : Type} (world : env)
    (p : string) (s s' : state video) (r : analysis_result video) :
  analyze_resume video world p s = (inr (Analysis r), s') →
  ∃ d,
    get_extracted_data world p = inr (Some d) ∧
    name video r = default VNone (d !! "name") ∧
    email video r = default VNone (d !! "email") ∧
    mobile_number video r = default VNone (d !! "mobile_number") ∧
    skills video r = default VNone (d !! "skills") ∧
    no_of_pages video r = default (VInt 0) (d !! "no_of_pages") ∧
    timestamp video r = now world.
Proof.
  intros Hrun.
  destruct (analyze_resume_fields world p s r s' Hrun)
    as (d & z & S & Hparse & Hpages & _ & Hn & He & Hm & Hs & Hp & _ & _ & _ & Ht).
  exists d. split_and!; try done. by rewrite Hp, <- Hpages.
Qed.

Lemma analyze_resume_passes_record_through_witness :
  ∃ r s',
    analyze_resume string sample_world "cv.pdf" sample_state
    = (inr (Analysis r), s') ∧
    name string r = VStr "Ada" ∧
    email string r = VNone ∧
    no_of_pages string r = VInt 1.
Proof.
  destruct sample_run as (r & s' & Hrun & _).
  exists r, s'. split; [exact Hrun|].
  destruct (analyze_resume_passes_record_through sample_world "cv.pdf"
              sample_state s' r Hrun)
    as (d & Hd & Hn & He & _ & _ & Hp & _).
  injection Hd as <-. rewrite Hn, He, Hp. clear. vm_compute. repeat split.
Defined.

(** X7. What a run does to the store. In every run each catalog is a
    permutation of what it was and both video lists are untouched; a run
    that does not end in a result leaves the whole store as it was; a run
    that ends in a result leaves every catalog other than the one of the
    predicted field exactly as it was. *)
Theorem analyze_resume_store_frame {video : Type} (world : env)
    (p : string) (s : state video) :
  (∀ c, read_catalog c (globals video (analyze_resume video world p s).2)
        ≡ₚ read_catalog c (globals video s)) ∧
  resume_videos video (globals video (analyze_resume video world p s).2)
    = resume_videos video (globals video s) ∧
  interview_videos video (globals video (analyze_resume video world p s).2)
    = interview_videos video (globals video s) ∧
  ((∀ r, (analyze_resume video world p s).1 ≠ inr (Analysis r)) →
     globals video (analyze_resume video world p s).2 = globals video s) ∧
  (∀ r c,
     (analyze_resume video world p s).1 = inr (Analysis r) →
     catalog_of_field (predicted_field video r) ≠ Some c →
     read_catalog c (globals video (analyze_resume video world p s).2)
     = read_catalog c (globals video s)).
Proof.
  pose proof (analyze_resume_outcome world p s) as Hout.
  destruct (analyze_resume video world p s) as [res s1] eqn:Hrun.
  inversion Hout as [e Hp | rd Hp Hf | d e Hp Hd Hwhy
                    | d text level S r s' Hp Hd Ht Hl Hs Hrun' Htr];
    subst; simpl; try (split_and!; done).
  destruct (analyze_resume_result world p s r s1 Hrun)
    as (d' & text' & S' & _ & _ & Hfield & _ & Hglobals & _).
  destruct (match_field_catalog S') as [Hcat _].
  unfold reco_field in Hfield. rewrite <- Hfield in Hcat.
  rewrite Hglobals.
  destruct (recommend_videos (match_field S').2 (globals video s) (gen video s))
    as [Hrv Hiv].
  split_and!; try done.
  - intros c. destruct (match_field S').2 as [c'|]; [|done]. simpl.
    apply write_catalog_Permutation, shuffle_Permutation.
  - intros Hno. by destruct (Hno r).
  - intros r' c [= <-] Hne. rewrite Hcat in Hne.
    destruct (match_field S').2 as [c'|]; [|done]. simpl.
    apply read_write_catalog_ne. congruence.
Qed.

Lemma match_field_skills S1 S2 :
  (match_field S1).1.1 = (match_field S2).1.1 →
  (match_field S1).1.2 = (match_field S2).1.2.
Proof.
  unfold match_field.
  repeat (destruct (any_in _ S1)); repeat (destruct (any_in _ S2));
    simpl; intros H; first [reflexivity | discriminate H].
Qed.

(** X8. The recommended skills are a fixed list for each field: two
    results with the same predicted field recommend the same skills,
    whatever skills the candidates have, and the list is empty exactly for
    the field ["Other"]. *)
Theorem recommended_skills_by_field {video : Type} (world1 world2 : env)
    (p1 p2 : string) (s1 s1' s2 s2' : state video)
    (r1 r2 : analysis_result video) :
  analyze_resume video world1 p1 s1 = (inr (Analysis r1), s1') →
  analyze_resume video world2 p2 s2 = (inr (Analysis r2), s2') →
  (predicted_field video r1 = predicted_field video r2 →
   recommended_skills video r1 = recommended_skills video r2) ∧
  (recommended_skills video r1 = [] ↔ predicted_field video r1 = "Other").
Proof.
  intros Hrun1 Hrun2.
  destruct (analyze_resume_fields world1 p1 s1 r1 s1' Hrun1)
    as (d1 & z1 & S1 & _ & _ & _ & _ & _ & _ & _ & _ & _ & Hf1 & Hk1 & _).
  destruct (analyze_resume_fields world2 p2 s2 r2 s2' Hrun2)
    as (d2 & z2 & S2 & _ & _ & _ & _ & _ & _ & _ & _ & _ & Hf2 & Hk2 & _).
  rewrite Hf1, Hf2, Hk1, Hk2. split; [apply match_field_skills|].
  unfold match_field.
  repeat (destruct (any_in _ S1); [by split|]). by split.
Qed.

Lemma recommended_skills_by_field_witness :
  ∃ r s',
    analyze_resume string excel_world "cv.pdf" sample_state
    = (inr (Analysis r), s') ∧
    (recommended_skills string r = [] ↔ predicted_field string r = "Other").
Proof.
  destruct scenario_other as (r & s' & Hrun & _).
  exists r, s'. split; [exact Hrun|].
  exact (proj2 (recommended_skills_by_field excel_world excel_world
                  "cv.pdf" "cv.pdf" sample_state s' sample_state s' r r
                  Hrun Hrun)).
Defined.

(** X9. In every result the predicted field is one of the five field
    names or ["Other"], and the candidate level is one of Fresher,
    Intermediate, Experienced and the empty string. *)
Theorem result_field_and_level_ranges {video : Type} (world : env)
    (p : string) (s s' : state video) (r : analysis_result video) :
  analyze_resume video world p s = (inr (Analysis r), s') →
  predicted_field video r
    ∈ ["Data Science"; "Web Development"; "Android Development";
       "IOS Development"; "UI-UX Development"; "Other"] ∧
  candidate_level video r ∈ ["Fresher"; "Intermediate"; "Experienced"; ""].
Proof.
  intros Hrun.
  destruct (analyze_resume_fields world p s r s' Hrun)
    as (d & z & S & _ & _ & _ & _ & _ & _ & _ & _ & Hl & Hf & _).
  rewrite Hl, Hf. split.
  - unfold match_field.
    repeat (destruct (any_in _ S); [simpl; set_solver|]). simpl. set_solver.
  - unfold cand_level_of.
    destruct (z =? 1); [set_solver|]. destruct (z =? 2); [set_solver|].
    destruct (z >=? 3); set_solver.
Qed.

Lemma result_field_and_level_ranges_witness :
  ∃ r s',
    analyze_resume string sample_world "cv.pdf" sample_state
    = (inr (Analysis r), s') ∧
    candidate_level string r ∈ ["Fresher"; "Intermediate"; "Experienced"; ""].
Proof.
  destruct sample_run as (r & s' & Hrun & _).
  exists r, s'. split; [exact Hrun|].
  exact (proj2 (result_field_and_level_ranges sample_world "cv.pdf"
                  sample_state s' r Hrun)).
Defined.



(** X11. Data Science is tested first: a skill set holding any Data
    Science keyword is classified Data Science whatever else it holds.
    The keyword flask is in the Data Science list and in the Web
    Development list, so a skill set classified Web Development never
    holds flask. *)
Theorem data_science_takes_precedence (S : gset string) :
  (∀ k, k ∈ ds_keyword → k ∈ S → reco_field S = "Data Science") ∧
  (reco_field S = "Web Development" → "flask" ∉ S).
Proof.
  unfold reco_field, match_field.
  destruct (any_in ds_keyword S) eqn:Hds; simpl.
  - split; [done | discriminate].
  - apply any_in_false in Hds. split.
    + intros k Hk HS. exfalso.
      apply (not_elem_of_empty (C:=gset string) k). rewrite <- Hds.
      apply elem_of_intersection. split; [done|].
      by apply elem_of_list_to_set.
    + intros _ HS.
      apply (not_elem_of_empty (C:=gset string) "flask"). rewrite <- Hds.
      apply elem_of_intersection. split; [done|].
      apply elem_of_list_to_set. unfold ds_keyword.
      rewrite !elem_of_cons. tauto.
Qed.

(** X12. The keyword "work experience" of the projects section never
    decides: a text holds one of projects, experience and work experience
    exactly when it holds one of projects and experience. *)
Theorem work_experience_keyword_redundant (text : string) :
  any_keyword_in ["projects"; "experience"; "work experience"] text
  = any_keyword_in ["projects"; "experience"] text ∧
  (scan_sections text).2 !! "projects"
  = Some (any_keyword_in ["projects"; "experience"] text).
Proof.
  assert (any_keyword_in ["projects"; "experience"; "work experience"] text
          = any_keyword_in ["projects"; "experience"] text) as Heq.
  { unfold any_keyword_in. simpl.
    destruct (str_in "projects" text); [done|]. simpl.
    destruct (str_in "experience" text) eqn:He; [done|]. simpl.
    rewrite orb_false_r. apply not_true_iff_false. intros Hwe.
    apply str_in_spec in Hwe.
    assert (substring_of "experience" text) as Hsub.
    { apply substring_of_trans with "work experience"; [|done].
      by exists "work ", "". }
    apply str_in_spec in Hsub. congruence. }
  split; [done|]. rewrite <- Heq.
  apply scan_sections_lookup. unfold sections_to_check.
  rewrite !elem_of_cons. tauto.
Qed.

(** X13. A section keyword is found in any letter case: if the text holds
    a string whose lower-casing is a keyword of a section, that section is
    marked present. *)
Theorem section_keyword_any_case (section : string) (keywords : list string)
    (keyword K T : string) :
  (section, keywords) ∈ sections_to_check →
  keyword ∈ keywords →
  lower K = keyword →
  substring_of K T →
  (scan_sections (lower T)).2 !! section = Some true.
Proof.
  intros Hin Hkw HK Hsub.
  rewrite (scan_sections_lookup _ _ _ Hin). f_equal.
  apply any_keyword_in_true. exists keyword. split; [done|].
  rewrite <- HK. by apply substring_of_lower.
Qed.

Lemma section_keyword_any_case_witness :
  (scan_sections (lower "MY PROJECTS")).2 !! "projects" = Some true.
Proof.
  apply (section_keyword_any_case "projects"
           ["projects"; "experience"; "work experience"]
           "projects" "PROJECTS" "MY PROJECTS").
  - unfold sections_to_check. rewrite !elem_of_cons. tauto.
  - rewrite !elem_of_cons. tauto.
  - reflexivity.
  - exists "MY ", "". reflexivity.
Defined.

Lemma analyze_resume_without_courses_witness :
  ∃ r s',
    analyze_resume string sample_world "cv.pdf" bare_state
    = (inr (Analysis r), s') ∧
    recommended_courses string r = [] ∧
    resume_video_rec string r = None ∧
    interview_video_rec string r = None.
Proof.
  pose proof (analyze_resume_run (video:=string) sample_world "cv.pdf"
                bare_state sample_record "My Projects and Certifications"
                _ _ eq_refl sample_record_nonempty eq_refl eq_refl eq_refl)
    as Hrun.
  eexists _, _. split; [exact Hrun|].
  exact (analyze_resume_without_courses sample_world "cv.pdf" bare_state
           _ _ eq_refl Hrun).
Defined.

(** X15. The courses [course_recommender] returns are, in order, the first
    five entries of the catalog as the call leaves it in the store, each
    with the entry's name and link; a catalog of at most one entry is left
    as it was, and no draw is made for it. *)
Theorem course_recommender_prefix {video : Type} (c : catalog)
    (s : state video) :
  ∃ cs s',
    course_recommender video c s = (inr cs, s') ∧
    cs = course_entry <$> take 5 (read_catalog c (globals video s')) ∧
    (∀ i x, cs !! i = Some x →
       (i < 5)%nat ∧
       read_catalog c (globals video s') !! i
       = Some (course_name x, course_link x)) ∧
    ((List.length (read_catalog c (globals video s)) ≤ 1)%nat →
       globals video s' = globals video s ∧ gen video s' = gen video s).
Proof.
  eexists _, _. split; [apply course_recommender_run|]. simpl.
  rewrite read_write_catalog. split_and!.
  - done.
  - intros i x Hx. apply list_lookup_fmap_Some in Hx as ([n l] & -> & Hx).
    apply lookup_take_Some in Hx as [Hx Hi]. done.
  - intros Hlen. unfold shuffle.
    replace (List.length (read_catalog c (globals video s)) - 1)%nat
      with 0%nat by lia.
    simpl. split; [|done]. by destruct c, (globals video s).
Qed.

(** * The route *)

Section RouteFacts.

Context {video : Type} (world : env) (machine : host).
Implicit Types (sv : server video) (file : upload).

Lemma path_join_upload_folder b :
  path_join UPLOAD_FOLDER b
  = if starts_with "/" b then b else "Uploaded_Resumes_API/" +:+ b.
Proof. unfold path_join. by destruct (starts_with "/" b). Qed.

Lemma upload_path_nonempty name : upload_path machine name ≠ "".
Proof.
  unfold upload_path. rewrite path_join_upload_folder.
  destruct (starts_with "/" _) eqn:Hs; [|done].
  intros Hempty. rewrite Hempty in Hs. discriminate.
Qed.

Lemma cleanup_saved file_path (d : gset string) :
  file_path ≠ "" → cleanup file_path ({[file_path]} ∪ d) = d ∖ {[file_path]}.
Proof.
  intros Hne. unfold cleanup.
  rewrite (bool_decide_eq_false_2 _ Hne). simpl.
  rewrite bool_decide_eq_true_2 by set_solver. set_solver.
Qed.

(** The try block: it never raises, leaves the engine as [analyze_resume]
    does, and answers by the outcome of [analyze_resume]. *)
Lemma analyze_route_try_outcome p (s : state video) :
  analyze_route_try video world p s
  = (inr match (analyze_resume video world p s).1 with
         | inr (Analysis r) => (ResultBody r, 200)
         | inr (ErrorDict error) => (ErrorBody error, 400)
         | inl _ =>
             (ErrorBody "An unexpected server error occurred during analysis.",
              500)
         end,
     (analyze_resume video world p s).2).
Proof.
  unfold analyze_route_try, bind, try.
  by destruct (analyze_resume video world p s) as [[e | [error | r]] s'].
Qed.

(** The route on an upload with a file name, when the save succeeds. *)
Lemma analyze_route_saved request_files sv file name :
  request_files !! "resume" = Some file →
  upload_filename file = Some name →
  name ≠ "" →
  save machine (upload_path machine name) = Saved →
  analyze_route world machine request_files sv
  = (inr match (analyze_resume video world (upload_path machine name)
                  (engine sv)).1 with
         | inr (Analysis r) => (ResultBody r, 200)
         | inr (ErrorDict error) => (ErrorBody error, 400)
         | inl _ =>
             (ErrorBody "An unexpected server error occurred during analysis.",
              500)
         end,
     Server (disk sv ∖ {[upload_path machine name]})
       (analyze_resume video world (upload_path machine name) (engine sv)).2).
Proof.
  intros Hfile Hname Hne Hsave. unfold analyze_route.
  rewrite Hfile. rewrite bool_decide_eq_false_2 by congruence.
  unfold file_truthy. rewrite Hname. simpl.
  rewrite (bool_decide_eq_false_2 _ Hne). simpl. rewrite Hsave.
  rewrite analyze_route_try_outcome.
  by rewrite cleanup_saved by apply upload_path_nonempty.
Qed.

End RouteFacts.

(** X16. A request without a part named resume, with an empty file name,
    or with no file name is answered 400 with its own message; nothing is
    saved and no collaborator is called (the server is as it was). *)
Theorem analyze_route_rejects {video : Type} (world : env) (machine : host)
    (request_files : gmap string upload) (sv : server video) :
  (request_files !! "resume" = None →
   analyze_route world machine request_files sv
   = (inr (ErrorBody "No resume file part in the request", 400), sv)) ∧
  (∀ file, request_files !! "resume" = Some file →
     upload_filename file = Some "" →
     analyze_route world machine request_files sv
     = (inr (ErrorBody "No file selected", 400), sv)) ∧
  (∀ file, request_files !! "resume" = Some file →
     upload_filename file = None →
     analyze_route world machine request_files sv
     = (inr (ErrorBody "Invalid file provided.", 400), sv)).
Proof.
  unfold analyze_route. split_and!.
  - by intros ->.
  - intros file -> Hname. by rewrite bool_decide_eq_true_2.
  - intros file -> Hname. rewrite bool_decide_eq_false_2 by congruence.
    unfold file_truthy. by rewrite Hname.
Qed.

(** X17. When the upload has a file name and the save succeeds, the route
    always answers (it does not raise) with status 200, 400 or 500; the
    analysis has run on exactly the saved path; and afterwards the saved
    path is no longer on the disk while every other path is as it was,
    whatever the analysis did. *)
Theorem analyze_route_cleans_up {video : Type} (world : env) (machine : host)
    (request_files : gmap string upload) (sv : server video)
    (file : upload) (name : string) :
  request_files !! "resume" = Some file →
  upload_filename file = Some name →
  name ≠ "" →
  save machine (upload_path machine name) = Saved →
  ∃ resp sv',
    analyze_route world machine request_files sv = (inr resp, sv') ∧
    resp.2 ∈ [200; 400; 500] ∧
    engine sv'
    = (analyze_resume video world (upload_path machine name) (engine sv)).2 ∧
    (upload_path machine name ∉ disk sv') ∧
    (∀ q, q ≠ upload_path machine name → (q ∈ disk sv' ↔ q ∈ disk sv)).
Proof.
  intros Hfile Hname Hne Hsave.
  eexists _, _. split; [by eapply analyze_route_saved|]. simpl.
  split_and!.
  - destruct (analyze_resume video world _ _).1 as [e | [error | r]]; simpl;
      rewrite !elem_of_cons; tauto.
  - done.
  - set_solver.
  - intros q Hq. set_solver.
Qed.

Lemma analyze_route_cleans_up_witness :
  ∃ resp sv',
    analyze_route sample_world sample_host sample_request
      (Server {["notes.txt"]} sample_state)
    = (inr resp, sv') ∧
    ("Uploaded_Resumes_API/1700000000.5_cv.pdf" ∉ disk sv') ∧
    ("notes.txt" ∈ disk sv' ↔ "notes.txt" ∈ ({["notes.txt"]} : gset string)).
Proof.
  destruct (analyze_route_cleans_up sample_world sample_host
              sample_request
              (Server {["notes.txt"]} sample_state)
              (Upload (Some "cv.pdf")) "cv.pdf"
              eq_refl eq_refl ltac:(discriminate) eq_refl)
    as (resp & sv' & Hrun & _ & _ & Hgone & Hkept).
  exists resp, sv'. split; [exact Hrun|]. split; [exact Hgone|].
  apply Hkept. discriminate.
Defined.

(** X18. When the upload has a file name and the save succeeds, the answer
    follows the outcome of [analyze_resume] on the saved path: a result is
    answered 200 with the result as body, an error result 400 with the
    same error, and an exception 500 with a fixed message that is the same
    for every exception. *)
Theorem analyze_route_response {video : Type} (world : env) (machine : host)
    (request_files : gmap string upload) (sv : server video)
    (file : upload) (name : string) :
  request_files !! "resume" = Some file →
  upload_filename file = Some name →
  name ≠ "" →
  save machine (upload_path machine name) = Saved →
  let run := analyze_resume video world (upload_path machine name) (engine sv) in
  let answer := (analyze_route world machine request_files sv).1 in
  (∀ r, run.1 = inr (Analysis r) → answer = inr (ResultBody r, 200)) ∧
  (∀ error, run.1 = inr (ErrorDict error) →
     answer = inr (ErrorBody error, 400)) ∧
  (∀ e, run.1 = inl e →
     answer
     = inr (ErrorBody "An unexpected server error occurred during analysis.",
            500)).
Proof.
  intros Hfile Hname Hne Hsave. simpl.
  rewrite (analyze_route_saved world machine _ sv file name
             Hfile Hname Hne Hsave). simpl.
  split_and!; by intros ? ->.
Qed.

Lemma analyze_route_response_witness :
  (analyze_route unreadable_world sample_host
     sample_request (Server ∅ sample_state)).1
  = inr (ErrorBody "An unexpected server error occurred during analysis.", 500).
Proof.
  destruct (analyze_route_response unreadable_world sample_host
              sample_request
              (Server ∅ sample_state)
              (Upload (Some "cv.pdf")) "cv.pdf"
              eq_refl eq_refl ltac:(discriminate) eq_refl)
    as (_ & _ & Hraise).
  exact (Hraise (Exn "PDFSyntaxError" "No /Root object! - Is this really a PDF?")
           eq_refl).
Defined.

(** X19. Whenever the route answers, no path has been added to the disk.
    The route raises only when [file.save] raises: then no analysis has
    run (the engine is as it was), and the partial file, if the save left
    one, is not removed, the save being outside the try block. *)
Theorem analyze_route_disk_and_raise {video : Type} (world : env)
    (machine : host) (request_files : gmap string upload)
    (sv : server video) :
  (∀ resp,
     (analyze_route world machine request_files sv).1 = inr resp →
     disk (analyze_route world machine request_files sv).2 ⊆ disk sv) ∧
  (∀ e,
     (analyze_route world machine request_files sv).1 = inl e →
     ∃ file name partial,
       request_files !! "resume" = Some file ∧
       upload_filename file = Some name ∧
       save machine (upload_path machine name) = SaveRaises e partial ∧
       engine (analyze_route world machine request_files sv).2 = engine sv ∧
       disk (analyze_route world machine request_files sv).2
       = if partial then {[upload_path machine name]} ∪ disk sv
         else disk sv).
Proof.
  destruct (request_files !! "resume") as [file|] eqn:Hfile.
  2: { unfold analyze_route. rewrite Hfile. simpl. split; [done|].
       intros e [=]. }
  destruct (upload_filename file) as [name|] eqn:Hname.
  2: { destruct (analyze_route_rejects world machine request_files sv)
         as (_ & _ & Hnone).
       rewrite (Hnone file Hfile Hname). simpl. split; [done|]. intros e [=]. }
  destruct (decide (name = "")) as [-> | Hne].
  { destruct (analyze_route_rejects world machine request_files sv)
      as (_ & Hempty & _).
    rewrite (Hempty file Hfile Hname). simpl. split; [done|]. intros e [=]. }
  destruct (save machine (upload_path machine name)) as [|e0 partial] eqn:Hsave.
  - rewrite (analyze_route_saved world machine _ sv file name
               Hfile Hname Hne Hsave). simpl.
    split; [intros _ _; set_solver | intros e [=]].
  - unfold analyze_route. rewrite Hfile.
    rewrite bool_decide_eq_false_2 by congruence.
    unfold file_truthy. rewrite Hname. simpl.
    rewrite (bool_decide_eq_false_2 _ Hne). simpl. rewrite Hsave. simpl.
    split; [intros resp [=]|]. intros e [= <-].
    exists file, name, partial. by rewrite Hname.
Qed.
